(** * Contract Intelligence Parser: the web client, embedded and verified

    The repository's TypeScript client ([frontend/src]) is embedded
    shallowly: interfaces become records, string-literal unions become
    enumerations together with the literal they stand for, plain JS objects
    handed to axios become finite maps from property names to values, and
    React components become functions from their state to what they render
    or request.

    JS numbers that the code only ever uses as integers (byte counts, page
    numbers, milliseconds) are [Z]; confidences are compared against
    fractional constants and are binary64 floats, as in JavaScript. *)

From Stdlib Require Import ZArith Lia Ascii String.
From Stdlib Require Import Floats.PrimFloat.
From stdpp Require Import gmap strings list pretty.

Set Warnings "-inexact-float".

Local Open Scope Z_scope.
Local Open Scope string_scope.

(** ** Runtime values *)

(** The primitive JS values that occur in the objects modelled below. *)
Inductive JsValue : Type :=
| JsUndefined
| JsNull
| JsBool (b : bool)
| JsNum (n : Z)
| JsStr (s : string).

#[global] Instance JsValue_eq_dec : EqDecision JsValue.
Proof. solve_decision. Defined.

(** A property that is [undefined] is not an own entry of the object that
    axios serialises: [opt_entry k None] contributes nothing. *)
Definition opt_entry (k : string) (v : option JsValue)
  (o : gmap string JsValue) : gmap string JsValue :=
  match v with
  | Some x => <[k := x]> o
  | None => o
  end.

Arguments opt_entry : simpl never.

(** ** [types/index.ts] *)
Module Types.

(** [type ProcessingStatus = 'pending' | 'processing' | 'completed' | 'failed'] *)
Inductive ProcessingStatus : Type := Pending | Processing | Completed | Failed.

#[global] Instance ProcessingStatus_eq_dec : EqDecision ProcessingStatus.
Proof. solve_decision. Defined.

Definition ProcessingStatus_literal (s : ProcessingStatus) : string :=
  match s with
  | Pending => "pending"
  | Processing => "processing"
  | Completed => "completed"
  | Failed => "failed"
  end.

(** [source: 'rule' | 'llm'] *)
Inductive EvidenceSource : Type := Rule | Llm.

#[global] Instance EvidenceSource_eq_dec : EqDecision EvidenceSource.
Proof. solve_decision. Defined.

Definition EvidenceSource_literal (s : EvidenceSource) : string :=
  match s with
  | Rule => "rule"
  | Llm => "llm"
  end.

Record FieldEvidence : Type := {
  page : Z;
  snippet : string;
  source : EvidenceSource
}.

Record ExtractedField : Type := {
  value : JsValue;
  confidence : float;
  evidence : option FieldEvidence
}.

Inductive GapReason : Type := Missing | LowConfidence.
Inductive GapSeverity : Type := High | Medium | Low.

Record ContractGap : Type := {
  field : string;
  reason : GapReason;
  severity : GapSeverity
}.

Record ConfidenceSummary : Type := {
  average : float;
  low_count : Z;
  high_confidence_fields : Z;
  total_fields : Z
}.

Record ProcessingMetadata : Type := {
  ocr_used : bool;
  llm_used : bool;
  duration_ms : Z;
  error_message : option string
}.

Record Contract : Type := {
  id : string;
  filename : string;
  status : ProcessingStatus;
  processing_progress : Z;
  uploaded_at : string;
  size_bytes : Z;
  mime_type : string;
  overall_score : float;
  confidence_summary : ConfidenceSummary;
  gaps : list ContractGap;
  fields : gmap string ExtractedField;
  processing : ProcessingMetadata
}.

Record ContractListResponse : Type := {
  total : Z;
  resp_page : Z;
  limit : Z;
  contracts : list Contract
}.

(** The object a [FieldEvidence] is at run time: its own properties. *)
Definition FieldEvidence_object (e : FieldEvidence) : gmap string JsValue :=
  <["page" := JsNum (page e)]>
  (<["snippet" := JsStr (snippet e)]>
  (<["source" := JsStr (EvidenceSource_literal (source e))]> ∅)).


End Types.

(** ** [lib/utils.ts] *)
Module Utils.

(** *** [formatFileSize] *)

Definition sizes : list string := ["Bytes"; "KB"; "MB"; "GB"].

(** [Math.floor(Math.log(bytes) / Math.log(1024))] for [bytes >= 1], with
    the logarithm taken exactly: the floor of the base-1024 logarithm is the
    binary logarithm's floor divided by ten. This is the index the code
    computes for every size below [1024^4]; for larger sizes the binary64
    quotient can round up to the next integer, so there only a lower bound
    on the code's index is read off this definition. *)
Definition unit_index (bytes : Z) : Z := Z.log2 bytes / 10.

(** [Math.round(bytes / Math.pow(1024, i) * 100)], in hundredths.
    [Math.round] is [floor (x + 1/2)]. For sizes below [1024^4] the division
    by a power of two and the product by 100 are exact in binary64, and this
    is the number the code computes; it is not used beyond that range. *)
Definition round_hundredths (bytes i : Z) : Z :=
  (2 * (bytes * 100) + 1024 ^ i) / (2 * 1024 ^ i).

(** [String(h / 100)] for a non-negative number of hundredths [h]: the
    shortest decimal, without trailing zeros. *)
Definition hundredths_to_string (h : Z) : string :=
  let whole := pretty (h / 100) in
  let frac := h mod 100 in
  if decide (frac = 0) then whole
  else if decide (frac mod 10 = 0) then whole +:+ "." +:+ pretty (frac / 10)
  else whole +:+ "." +:+ pretty (frac / 10) +:+ pretty (frac mod 10).

(** [sizes[i]] spliced into a string: an index outside the array reads
    [undefined], which concatenation prints as such. *)
Definition unit_label (i : Z) : string :=
  default "undefined" (sizes !! Z.to_nat i).

Definition formatFileSize (bytes : Z) : string :=
  if decide (bytes = 0) then "0 Bytes"
  else if decide (bytes < 0) then "NaN undefined"
  else
    let i := unit_index bytes in
    hundredths_to_string (round_hundredths bytes i) +:+ " " +:+ unit_label i.

(** *** [getConfidenceColor], [getConfidenceBadgeVariant] *)

(** [x >= y] on JS numbers. *)
Definition js_ge (x y : float) : bool := PrimFloat.leb y x.

Definition getConfidenceColor (confidence : float) : string :=
  if js_ge confidence 0.8%float then "text-green-600"
  else if js_ge confidence 0.6%float then "text-yellow-600"
  else "text-red-600".

Inductive BadgeVariant : Type := default_variant | secondary | destructive.

Definition getConfidenceBadgeVariant (confidence : float) : BadgeVariant :=
  if js_ge confidence 0.8%float then default_variant
  else if js_ge confidence 0.6%float then secondary
  else destructive.

Definition getStatusColor (status : string) : string :=
  if decide (status = "completed") then "text-green-600"
  else if decide (status = "processing") then "text-blue-600"
  else if decide (status = "failed") then "text-red-600"
  else "text-gray-600".

(** *** Classification under configurable thresholds

    The classification the specification describes: the two thresholds are
    a configuration value handed to the classifier. It is stated here to
    be compared with the functions above. *)
Inductive ConfidenceTier : Type := tier_high | tier_medium | tier_low.

Record ConfidenceThresholds : Type := {
  low_threshold : float;
  high_threshold : float
}.

Definition spec_classify (t : ConfidenceThresholds) (confidence : float)
  : ConfidenceTier :=
  if js_ge confidence (high_threshold t) then tier_high
  else if js_ge confidence (low_threshold t) then tier_medium
  else tier_low.

Definition tier_color (t : ConfidenceTier) : string :=
  match t with
  | tier_high => "text-green-600"
  | tier_medium => "text-yellow-600"
  | tier_low => "text-red-600"
  end.

Definition tier_badge (t : ConfidenceTier) : BadgeVariant :=
  match t with
  | tier_high => default_variant
  | tier_medium => secondary
  | tier_low => destructive
  end.

(** The thresholds written into the client. *)
Definition client_thresholds : ConfidenceThresholds :=
  {| low_threshold := 0.6%float; high_threshold := 0.8%float |}.

End Utils.

(** ** The field extraction engine *)
Module Engine.

(** Modelled from the spec: the Field Extraction Engine, which is backend
    code and not among the client sources. For one field the rule pass
    yields at most one match with its confidence and its page and snippet;
    when no rule matches, or the match's confidence falls below the
    needs-confirmation threshold, and a secondary extractor is configured,
    its answer is taken, but only if it comes with a value and a confidence
    of its own; when both strategies fail the field is omitted. The result
    is the tagged variant [RuleMatch | ModelMatch | NoMatch]. A rule match
    always carries evidence; a fallback answer carries evidence only when
    a page could be established. The fallback's source tag is the one the
    client's [FieldEvidence] declares besides ['rule']. *)
Record RuleHit : Type := {
  rule_value : JsValue;
  rule_confidence : float;
  rule_page : Z;
  rule_snippet : string
}.

(** Modelled from the spec: what the secondary extractor returned; each
    part may be missing. *)
Record ModelAnswer : Type := {
  model_value : option JsValue;
  model_confidence : option float;
  model_locality : option (Z * string)
}.

(** Modelled from the spec: the tagged variant of the design notes. *)
Inductive MatchResult : Type :=
| RuleMatch (hit : RuleHit)
| ModelMatch (value : JsValue) (confidence : float)
    (locality : option (Z * string))
| NoMatch.

(** Modelled from the spec: the answer is accepted only with a value and
    its own confidence estimate. *)
Definition accept_answer (a : ModelAnswer) : option MatchResult :=
  match model_value a, model_confidence a with
  | Some v, Some c => Some (ModelMatch v c (model_locality a))
  | _, _ => None
  end.

(** Modelled from the spec: one field's extraction. [secondary] is [None]
    when no secondary extractor is configured, else its answer. *)
Definition extract (needs_confirmation : float) (rule : option RuleHit)
  (secondary : option ModelAnswer) : MatchResult :=
  match rule with
  | Some hit =>
      if PrimFloat.ltb (rule_confidence hit) needs_confirmation
      then match secondary ≫= accept_answer with
           | Some m => m
           | None => RuleMatch hit
           end
      else RuleMatch hit
  | None =>
      match secondary ≫= accept_answer with
      | Some m => m
      | None => NoMatch
      end
  end.

(** Modelled from the spec: the field a result contributes to the field
    map, in the client's types; no match contributes none. *)
Definition to_field (m : MatchResult) : option Types.ExtractedField :=
  match m with
  | RuleMatch hit =>
      Some {| Types.value := rule_value hit;
              Types.confidence := rule_confidence hit;
              Types.evidence :=
                Some {| Types.page := rule_page hit;
                        Types.snippet := rule_snippet hit;
                        Types.source := Types.Rule |} |}
  | ModelMatch v c locality =>
      Some {| Types.value := v;
              Types.confidence := c;
              Types.evidence :=
                (fun l : Z * string =>
                   {| Types.page := l.1; Types.snippet := l.2;
                      Types.source := Types.Llm |}) <$> locality |}
  | NoMatch => None
  end.

(** Modelled from the spec: whether a result is the fallback's. *)
Definition from_fallback (m : MatchResult) : bool :=
  match m with
  | ModelMatch _ _ _ => true
  | RuleMatch _ | NoMatch => false
  end.

End Engine.

(** ** Browser files *)

(** What the code reads of a DOM [File]. *)
Record File : Type := {
  file_name : string;
  file_type : string;
  file_size : Z
}.

#[global] Instance File_eq_dec : EqDecision File.
Proof. solve_decision. Defined.

(** ** [lib/api.ts] *)
Module Api.

Inductive Method : Type := GET | POST | DELETE.

(** An axios call: method, path below the base URL, query parameters and
    the entries of the multipart body. *)
Record Request : Type := {
  method : Method;
  url : string;
  params : gmap string JsValue;
  formData : list (string * File)
}.

(** [POST /contracts/upload] with the file under the form key [file]. *)
Definition uploadContract (file : File) : Request :=
  {| method := POST; url := "/contracts/upload"; params := ∅;
     formData := [("file", file)] |}.

Definition getProcessingStatus (contractId : string) : Request :=
  {| method := GET; url := "/contracts/" +:+ contractId +:+ "/status";
     params := ∅; formData := [] |}.

Definition getContract (contractId : string) : Request :=
  {| method := GET; url := "/contracts/" +:+ contractId;
     params := ∅; formData := [] |}.

(** The parameter object of [listContracts]; every property is optional.
    At run time [sort_order] is a string that TypeScript narrows to
    ['asc' | 'desc']. *)
Record ListContractsParams : Type := {
  page : option Z;
  limit : option Z;
  status : option string;
  sort_by : option string;
  sort_order : option string
}.

Definition ListContractsParams_object (p : ListContractsParams)
  : gmap string JsValue :=
  opt_entry "page" (JsNum <$> page p)
  (opt_entry "limit" (JsNum <$> limit p)
  (opt_entry "status" (JsStr <$> status p)
  (opt_entry "sort_by" (JsStr <$> sort_by p)
  (opt_entry "sort_order" (JsStr <$> sort_order p) ∅)))).

Definition listContracts (p : ListContractsParams) : Request :=
  {| method := GET; url := "/contracts";
     params := ListContractsParams_object p; formData := [] |}.

(** [options: { use_ocr?: boolean; use_llm?: boolean } = {}] *)
Record ReprocessOptions : Type := {
  use_ocr : option bool;
  use_llm : option bool
}.

Definition no_options : ReprocessOptions :=
  {| use_ocr := None; use_llm := None |}.

Definition ReprocessOptions_object (o : ReprocessOptions)
  : gmap string JsValue :=
  opt_entry "use_ocr" (JsBool <$> use_ocr o)
  (opt_entry "use_llm" (JsBool <$> use_llm o) ∅).

(** [api.post(`/contracts/${contractId}/reprocess`, null, { params: options })] *)
Definition reprocessContract (contractId : string) (options : ReprocessOptions)
  : Request :=
  {| method := POST; url := "/contracts/" +:+ contractId +:+ "/reprocess";
     params := ReprocessOptions_object options; formData := [] |}.

Definition deleteContract (contractId : string) : Request :=
  {| method := DELETE; url := "/contracts/" +:+ contractId;
     params := ∅; formData := [] |}.

End Api.

(** ** Interval polling

    The pages hand [useQuery] a [refetchInterval] function of the data last
    fetched: a number of milliseconds arms a timer after which the query is
    issued again, [false] (here [None]) arms none. [refetch_times] are the
    instants at which the query is re-issued when [shown] lists the data
    displayed after each successive fetch, the first of them at [now];
    responses are taken to arrive at once. *)
Fixpoint refetch_times {D : Type} (refetchInterval : option D -> option Z)
  (now : Z) (shown : list D) : list Z :=
  match shown with
  | [] => []
  | d :: later =>
      match refetchInterval (Some d) with
      | Some ms => (now + ms) :: refetch_times refetchInterval (now + ms) later
      | None => []
      end
  end.

(** [a || b] on an optional string: the empty string is falsy as well. *)
Definition or_else (a : option string) (b : string) : string :=
  match a with
  | Some s => if decide (s = "") then b else s
  | None => b
  end.

(** ** The contract detail page ([ContractDetailPage]) *)
Module ContractDetailPage.

(** [query.state.data?.status === 'processing' ? 5000 : false] *)
Definition refetchInterval (data : option Types.Contract) : option Z :=
  match data with
  | Some c =>
      if decide (Types.status c = Types.Processing) then Some 5000 else None
  | None => None
  end.

(** The requests [handleReprocess] issues: none without a contract;
    otherwise the reprocess call with [{ use_ocr: true }], followed by a
    refetch of the contract when the call was [accepted] (a rejected call
    is only logged). *)
Definition handleReprocess (contract : option Types.Contract) (accepted : bool)
  : list Api.Request :=
  match contract with
  | None => []
  | Some c =>
      Api.reprocessContract (Types.id c)
        {| Api.use_ocr := Some true; Api.use_llm := None |}
      :: (if accepted then [Api.getContract (Types.id c)] else [])
  end.

(** The page's own [getConfidenceColor]. *)
Definition getConfidenceColor (confidence : float) : string :=
  if Utils.js_ge confidence 0.8%float
  then "text-green-600 bg-green-50 border-green-200"
  else if Utils.js_ge confidence 0.6%float
  then "text-yellow-600 bg-yellow-50 border-yellow-200"
  else "text-red-600 bg-red-50 border-red-200".

(** The three class strings of the page's classifier, by tier. *)
Definition tier_classes (t : Utils.ConfidenceTier) : string :=
  match t with
  | Utils.tier_high => "text-green-600 bg-green-50 border-green-200"
  | Utils.tier_medium => "text-yellow-600 bg-yellow-50 border-yellow-200"
  | Utils.tier_low => "text-red-600 bg-red-50 border-red-200"
  end.

(** What a button's [onClick] is bound to; [handleReprocessClick] stands
    for the binding [onClick={handleReprocess}]. *)
Inductive Handler : Type :=
| handleReprocessClick
| handleDownload
| routerBack
| routerPushContracts.

#[global] Instance Handler_eq_dec : EqDecision Handler.
Proof. solve_decision. Defined.

Record Button : Type := { label : string; onClick : Handler }.

(** The header: back arrow, [Reprocess] when completed, [Download]. *)
Definition header_buttons (contract : Types.Contract) : list Button :=
  {| label := "Back"; onClick := routerBack |}
  :: (if decide (Types.status contract = Types.Completed)
      then [{| label := "Reprocess"; onClick := handleReprocessClick |}]
      else [])
  ++ [{| label := "Download"; onClick := handleDownload |}].

(** The error card, rendered when the status is failed: the message shown
    and the [Try Again] button. *)
Definition error_state (contract : Types.Contract) : option (string * Button) :=
  if decide (Types.status contract = Types.Failed)
  then Some (or_else (Types.error_message (Types.processing contract))
                     "An error occurred during processing",
             {| label := "Try Again"; onClick := handleReprocessClick |})
  else None.



(** Every button the page renders: none while loading, only
    [Back to Contracts] on an error or without a contract. *)
Definition buttons (isLoading error : bool) (contract : option Types.Contract)
  : list Button :=
  if isLoading then []
  else
    match error, contract with
    | false, Some c =>
        header_buttons c
        ++ match error_state c with Some (_, b) => [b] | None => [] end
    | _, _ => [{| label := "Back to Contracts"; onClick := routerPushContracts |}]
    end.

Definition offers_reprocess (contract : Types.Contract) : bool :=
  bool_decide (Exists (fun b => onClick b = handleReprocessClick)
                 (buttons false false (Some contract))).

(** *** [formatFieldName] *)

(** [\w]: an ASCII letter, digit or underscore. *)
Definition is_word_char (c : ascii) : bool :=
  let n := nat_of_ascii c in
  (((48 <=? n) && (n <=? 57)) || ((65 <=? n) && (n <=? 90))
   || ((97 <=? n) && (n <=? 122)) || (n =? 95))%nat.

(** [l.toUpperCase()] on one word character. *)
Definition ascii_to_upper (c : ascii) : ascii :=
  let n := nat_of_ascii c in
  if ((97 <=? n) && (n <=? 122))%nat then ascii_of_nat (n - 32) else c.

(** [.replace(/_/g, ' ')] *)
Fixpoint replace_underscores (s : string) : string :=
  match s with
  | EmptyString => EmptyString
  | String c rest =>
      String (if Ascii.eqb c "_"%char then " "%char else c)
             (replace_underscores rest)
  end.

(** [.replace(/\b\w/g, l => l.toUpperCase())]: a word character is put in
    upper case when what precedes it is not a word character;
    [after_word] tells whether the character before [s] is one. *)
Fixpoint capitalize_words (after_word : bool) (s : string) : string :=
  match s with
  | EmptyString => EmptyString
  | String c rest =>
      String (if is_word_char c && negb after_word then ascii_to_upper c else c)
             (capitalize_words (is_word_char c) rest)
  end.

Definition formatFieldName (fieldName : string) : string :=
  capitalize_words false (replace_underscores fieldName).

(** *** [getFieldsByCategory] *)

(** The [categories] object, in the order of its keys. *)
Definition categories : list (string * list string) :=
  [("parties", ["party_1_name"; "party_2_name"]);
   ("dates", ["effective_date"; "execution_date"; "termination_date";
              "renewal_term"; "auto_renewal"; "notice_period"]);
   ("financial", ["contract_value"; "currency"; "payment_terms";
                  "billing_frequency"]);
   ("legal", ["governing_law"; "liability_cap"; "confidentiality";
              "termination_for_convenience"; "termination_for_cause"]);
   ("sla", ["sla_uptime"; "support_hours"])].

(** [fieldNames.map(name => ({ name, field: fields[name] }))
      .filter(({ field }) => field)]: the names that have a field, each
    with its field, in the order of [fieldNames]. *)
Definition present_fields (fields : gmap string Types.ExtractedField)
  (fieldNames : list string) : list (string * Types.ExtractedField) :=
  omap (fun name => (fun f => (name, f)) <$> fields !! name) fieldNames.

(** The [reduce] over [Object.entries(categories)], filling [acc]. *)
Definition getFieldsByCategory (fields : gmap string Types.ExtractedField)
  : gmap string (list (string * Types.ExtractedField)) :=
  foldl (fun acc entry =>
           <[entry.1 := present_fields fields entry.2]> acc)
        ∅ categories.

(** The cards of the [Extracted Fields] section, in the order the page
    lays them out; [fieldsByCategory.<key>.length > 0] guards each. *)
Definition card_order : list (string * string) :=
  [("parties", "Party Information"); ("financial", "Financial Terms");
   ("dates", "Important Dates"); ("legal", "Legal Terms");
   ("sla", "Service Level Agreements")].

Definition field_cards (fields : gmap string Types.ExtractedField)
  : list (string * list (string * Types.ExtractedField)) :=
  omap (fun card =>
          match getFieldsByCategory fields !! card.1 with
          | Some (x :: rows) => Some (card.2, x :: rows)
          | _ => None
          end)
       card_order.

(** Every field row the page shows for a contract: the section is rendered
    for a completed contract with at least one field. *)
Definition displayed_fields (contract : Types.Contract)
  : list (string * Types.ExtractedField) :=
  if decide (Types.status contract = Types.Completed)
  then if decide (Types.fields contract = ∅) then []
       else mjoin (snd <$> field_cards (Types.fields contract))
  else [].

(** The names in the order the cards show them. *)
Definition card_field_names : list string :=
  (["party_1_name"; "party_2_name"]
   ++ ["contract_value"; "currency"; "payment_terms"; "billing_frequency"]
   ++ ["effective_date"; "execution_date"; "termination_date";
       "renewal_term"; "auto_renewal"; "notice_period"]
   ++ ["governing_law"; "liability_cap"; "confidentiality";
       "termination_for_convenience"; "termination_for_cause"]
   ++ ["sla_uptime"; "support_hours"])%list.

(** The names [getFieldsByCategory] knows. *)
Definition known_field_names : list string :=
  mjoin (snd <$> categories).

End ContractDetailPage.

(** ** The contract list page ([app/contracts/page.tsx]) *)
Module ContractsPage.

(** The four [useState] cells. At run time the filter, the sort key and the
    sort order are the strings the [select] elements hand over. *)
Record State : Type := {
  page : Z;
  statusFilter : string;
  sortBy : string;
  sortOrder : string
}.

Definition initial : State :=
  {| page := 1; statusFilter := ""; sortBy := "uploaded_at";
     sortOrder := "desc" |}.

(** The [option] elements of the three [select]s: value and label. *)
Definition status_options : list (string * string) :=
  [("", "All statuses"); ("pending", "Pending"); ("processing", "Processing");
   ("completed", "Completed"); ("failed", "Failed")].

Definition sort_by_options : list (string * string) :=
  [("uploaded_at", "Upload Date"); ("overall_score", "Score");
   ("filename", "Filename")].

Definition sort_order_options : list (string * string) :=
  [("desc", "Descending"); ("asc", "Ascending")].

(** [queryFn]: the list request for the current state;
    [statusFilter || undefined] drops the empty filter. *)
Definition queryFn (s : State) : Api.Request :=
  Api.listContracts
    {| Api.page := Some (page s);
       Api.limit := Some 10;
       Api.status :=
         if decide (statusFilter s = "") then None else Some (statusFilter s);
       Api.sort_by := Some (sortBy s);
       Api.sort_order := Some (sortOrder s) |}.

(** [data?.contracts?.some(c => c.status === 'processing') ?? false],
    then [hasProcessing ? 5000 : false]. *)
Definition hasProcessing (data : option Types.ContractListResponse) : bool :=
  match data with
  | Some d =>
      existsb (fun c => bool_decide (Types.status c = Types.Processing))
        (Types.contracts d)
  | None => false
  end.

Definition refetchInterval (data : option Types.ContractListResponse)
  : option Z :=
  if hasProcessing data then Some 5000 else None.


(** The states in which the three [select]s can leave their cells. *)
Definition selects_consistent (s : State) : Prop :=
  statusFilter s ∈ (fst <$> status_options) /\
  sortBy s ∈ (fst <$> sort_by_options) /\
  sortOrder s ∈ (fst <$> sort_order_options).

(** What the component returns: the spinner, the error card, or the page
    proper for the data fetched. *)
Inductive View : Type :=
| Loading
| LoadError
| Loaded (contractsData : Types.ContractListResponse).

(** [Math.ceil(total / 10)] *)
Definition total_pages (total : Z) : Z := - ((- total) / 10).

(** [contractsData && contractsData.total > 10] *)
Definition pagination_rendered (d : Types.ContractListResponse) : bool :=
  bool_decide (10 < Types.total d).

(** [disabled={page <= 1}] *)
Definition previous_disabled (s : State) : bool := bool_decide (page s <= 1).

(** [disabled={page >= Math.ceil(contractsData.total / 10)}] *)
Definition next_disabled (s : State) (d : Types.ContractListResponse) : bool :=
  bool_decide (total_pages (Types.total d) <= page s).

Definition setPage (p : Z) (s : State) : State :=
  {| page := p; statusFilter := statusFilter s; sortBy := sortBy s;
     sortOrder := sortOrder s |}.

Definition setStatusFilter (v : string) (s : State) : State :=
  {| page := page s; statusFilter := v; sortBy := sortBy s;
     sortOrder := sortOrder s |}.

Definition setSortBy (v : string) (s : State) : State :=
  {| page := page s; statusFilter := statusFilter s; sortBy := v;
     sortOrder := sortOrder s |}.

Definition setSortOrder (v : string) (s : State) : State :=
  {| page := page s; statusFilter := statusFilter s; sortBy := sortBy s;
     sortOrder := v |}.

(** What the user can do: pick the [i]-th option of a [select], or click a
    pagination button. *)
Inductive Event : Type :=
| ChangeStatus (i : nat)
| ChangeSortBy (i : nat)
| ChangeSortOrder (i : nat)
| ClickPrevious
| ClickNext.

(** [e.target.value] of a change event: the value of the option picked. *)
Definition target_value (options : list (string * string)) (i : nat)
  : option string := fst <$> options !! i.

(** One event under the view on screen. The spinner and the error card
    carry none of the controls; a disabled or unrendered button does
    nothing. *)
Definition step (v : View) (s : State) (e : Event) : State :=
  match v with
  | Loaded d =>
      match e with
      | ChangeStatus i =>
          match target_value status_options i with
          | Some x => setStatusFilter x s
          | None => s
          end
      | ChangeSortBy i =>
          match target_value sort_by_options i with
          | Some x => setSortBy x s
          | None => s
          end
      | ChangeSortOrder i =>
          match target_value sort_order_options i with
          | Some x => setSortOrder x s
          | None => s
          end
      | ClickPrevious =>
          if pagination_rendered d && negb (previous_disabled s)
          then setPage (page s - 1) s else s
      | ClickNext =>
          if pagination_rendered d && negb (next_disabled s d)
          then setPage (page s + 1) s else s
      end
  | Loading | LoadError => s
  end.

(** A session: each event with the view it was made on. *)
Fixpoint run (trace : list (View * Event)) (s : State) : State :=
  match trace with
  | [] => s
  | (v, e) :: rest => run rest (step v s e)
  end.

(** The total a view displays, when it displays data. *)
Definition view_total (v : View) : option Z :=
  match v with
  | Loaded d => Some (Types.total d)
  | Loading | LoadError => None
  end.

(** The pagination clicks among the events. *)
Definition is_click (e : Event) : bool :=
  match e with
  | ClickPrevious | ClickNext => true
  | ChangeStatus _ | ChangeSortBy _ | ChangeSortOrder _ => false
  end.

End ContractsPage.

(** ** File selection (react-dropzone)

    [useDropzone] is a dependency of the client, not part of it. What
    follows is its file check as the library performs it for the options it
    is given: the [accept] map is flattened into a list of MIME types and
    file extensions, and a file passes when its type or the end of its name
    matches one entry. *)
Module Dropzone.

Definition ascii_to_lower (c : ascii) : ascii :=
  let n := nat_of_ascii c in
  if ((65 <=? n) && (n <=? 90))%nat then ascii_of_nat (n + 32) else c.

Fixpoint toLowerCase (s : string) : string :=
  match s with
  | EmptyString => EmptyString
  | String c rest => String (ascii_to_lower c) (toLowerCase rest)
  end.

Definition endsWith (s suffix : string) : bool :=
  let n := String.length s in
  let m := String.length suffix in
  ((m <=? n)%nat && String.eqb (substring (n - m) m s) suffix).

(** [s.replace(/\/.*$/, '')]: what precedes the first slash. *)
Fixpoint before_slash (s : string) : string :=
  match s with
  | EmptyString => EmptyString
  | String c rest =>
      if Ascii.eqb c "/"%char then EmptyString else String c (before_slash rest)
  end.

Inductive ErrorCode : Type :=
| file_invalid_type
| file_too_large
| file_too_small
| too_many_files.

Record FileRejection : Type := {
  file : File;
  errors : list ErrorCode
}.

Record Options : Type := {
  accept : list (string * list string);
  multiple : bool;
  maxFiles : Z;
  minSize : Z;
  maxSize : Z
}.

(** The accept map as a flat list: each MIME type, then its extensions.
    (The library also drops entries that are neither a MIME type nor an
    extension and trims blanks; the card's entries are well formed.) *)
Definition acceptPropAsAcceptAttr (accept : list (string * list string))
  : list string :=
  flat_map (fun entry => fst entry :: snd entry) accept.

(** One entry of the accept list against a file: an extension is compared
    with the end of the lower-cased name, [type/*] with the part of the MIME
    type before the slash, anything else with the whole MIME type. *)
Definition accepts_entry (f : File) (entry : string) : bool :=
  let validType := toLowerCase entry in
  let mimeType := toLowerCase (file_type f) in
  match validType with
  | String "." _ => endsWith (toLowerCase (file_name f)) validType
  | _ =>
      if endsWith validType "/*"
      then String.eqb (before_slash mimeType) (before_slash validType)
      else String.eqb mimeType validType
  end.

Definition accepts (f : File) (acceptAttr : list string) : bool :=
  match acceptAttr with
  | [] => true
  | _ => existsb (accepts_entry f) acceptAttr
  end.

Definition fileAccepted (f : File) (acceptAttr : list string)
  : bool * list ErrorCode :=
  let isAcceptable :=
    String.eqb (file_type f) "application/x-moz-file" || accepts f acceptAttr in
  (isAcceptable, if isAcceptable then [] else [file_invalid_type]).

Definition fileMatchSize (f : File) (minSize maxSize : Z)
  : bool * list ErrorCode :=
  if bool_decide (maxSize < file_size f) then (false, [file_too_large])
  else if bool_decide (file_size f < minSize) then (false, [file_too_small])
  else (true, []).

(** The first pass over the dropped files: each goes to the accepted list
    or, with its errors, to the rejections. *)
Fixpoint sort_files (o : Options) (files : list File)
  : list File * list FileRejection :=
  match files with
  | [] => ([], [])
  | f :: rest =>
      let '(accepted, acceptError) :=
        fileAccepted f (acceptPropAsAcceptAttr (accept o)) in
      let '(sizeMatch, sizeError) := fileMatchSize f (minSize o) (maxSize o) in
      let '(acc, rej) := sort_files o rest in
      if accepted && sizeMatch then (f :: acc, rej)
      else (acc, {| file := f; errors := (acceptError ++ sizeError)%list |} :: rej)
  end.

(** [setFiles]: after the first pass, more accepted files than allowed
    rejects them all. The pair is what [onDrop] and [fileRejections] get. *)
Definition setFiles (o : Options) (files : list File)
  : list File * list FileRejection :=
  let '(acc, rej) := sort_files o files in
  if (negb (multiple o) && bool_decide (1 < Z.of_nat (length acc)))
     || (multiple o && bool_decide (1 <= maxFiles o)
         && bool_decide (maxFiles o < Z.of_nat (length acc)))
  then ([], (rej ++ map (fun f => {| file := f; errors := [too_many_files] |}) acc)%list)
  else (acc, rej).

(** The two tests of the first pass together. *)
Definition file_ok (o : Options) (f : File) : bool :=
  fst (fileAccepted f (acceptPropAsAcceptAttr (accept o)))
  && fst (fileMatchSize f (minSize o) (maxSize o)).

End Dropzone.

(** ** What reaches the file check (file-selector)

    Before its check react-dropzone hands the browser's event to the
    file-selector library, again a dependency of the client: on a drop the
    system files [.DS_Store] and [Thumbs.db] are discarded, and in either
    case a file whose MIME type the browser left empty gets the type the
    library's table lists for its extension. The table itself is a
    parameter here. Folders are taken as already flattened. *)
Module FileSelector.

Definition FILES_TO_IGNORE : list string := [".DS_Store"; "Thumbs.db"].

Definition ignored (f : File) : bool :=
  bool_decide (file_name f ∈ FILES_TO_IGNORE).

Definition noIgnoredFiles (files : list File) : list File :=
  filter (fun f => ignored f = false) files.

(** [name.split('.').pop()] for a name with a dot: what follows the last
    dot; [None] for a name without one. *)
Fixpoint extension (name : string) : option string :=
  match name with
  | EmptyString => None
  | String c rest =>
      match extension rest with
      | Some ext => Some ext
      | None => if Ascii.eqb c "."%char then Some rest else None
      end
  end.

(** [withMimeType]: only an empty type is filled in, and only from a
    non-empty table entry. *)
Definition withMimeType (COMMON_MIME_TYPES : string -> option string)
  (f : File) : File :=
  match extension (file_name f) with
  | Some ext =>
      if decide (file_type f = "") then
        match COMMON_MIME_TYPES (Dropzone.toLowerCase ext) with
        | Some type =>
            if decide (type = "") then f
            else {| file_name := file_name f; file_type := type;
                    file_size := file_size f |}
        | None => f
        end
      else f
  | None => f
  end.

(** How the files arrive: dragged onto the card, or chosen in the file
    dialog. *)
Inductive Arrival : Type := dragged | chosen.

Definition fromEvent (COMMON_MIME_TYPES : string -> option string)
  (how : Arrival) (files : list File) : list File :=
  withMimeType COMMON_MIME_TYPES
    <$> match how with
        | dragged => noIgnoredFiles files
        | chosen => files
        end.

End FileSelector.

(** ** The upload card ([FileUpload]) *)
Module FileUpload.

(** The options handed to [useDropzone]; [multiple] and [minSize] are left
    at the library's defaults. *)
Definition dropzone_options : Dropzone.Options :=
  {| Dropzone.accept := [("application/pdf", [".pdf"])];
     Dropzone.multiple := true;
     Dropzone.maxFiles := 1;
     Dropzone.minSize := 0;
     Dropzone.maxSize := 50 * 1024 * 1024 |}.

(** [onDrop]: the first accepted file, if any, is handed to the upload
    mutation, which posts it. *)
Definition onDrop (acceptedFiles : list File) : list Api.Request :=
  match acceptedFiles with
  | f :: _ => [Api.uploadContract f]
  | [] => []
  end.

(** What the card does with the files that reach the check: the upload
    requests [onDrop] causes and the rejections the card lists. *)
Definition check (selected : list File)
  : list Api.Request * list Dropzone.FileRejection :=
  let '(acceptedFiles, fileRejections) :=
    Dropzone.setFiles dropzone_options selected in
  (onDrop acceptedFiles, fileRejections).

(** Files presented to the card, dragged or chosen: file-selector first,
    then the check. *)
Definition drop (COMMON_MIME_TYPES : string -> option string)
  (how : FileSelector.Arrival) (files : list File)
  : list Api.Request * list Dropzone.FileRejection :=
  check (FileSelector.fromEvent COMMON_MIME_TYPES how files).

(** What [accept: { 'application/pdf': ['.pdf'] }] lets through, spelled
    out: a PDF by its MIME type or by the end of its name, or a file
    dragged from an old Firefox, which reports a placeholder type. *)
Definition is_pdf (f : File) : bool :=
  String.eqb (file_type f) "application/x-moz-file"
  || String.eqb (Dropzone.toLowerCase (file_type f)) "application/pdf"
  || Dropzone.endsWith (Dropzone.toLowerCase (file_name f)) ".pdf".

(** The whole check under [dropzone_options]: a PDF of at most 50 MB. *)
Definition passes_check (f : File) : bool :=
  is_pdf f && bool_decide (0 <= file_size f <= 50 * 1024 * 1024).

Definition uploads (COMMON_MIME_TYPES : string -> option string)
  (how : FileSelector.Arrival) (files : list File) : list Api.Request :=
  fst (drop COMMON_MIME_TYPES how files).

Definition fileRejections (COMMON_MIME_TYPES : string -> option string)
  (how : FileSelector.Arrival) (files : list File)
  : list Dropzone.FileRejection :=
  snd (drop COMMON_MIME_TYPES how files).

(** A value of type [any], as far as [||] and the page look at it: a
    string, or some other value of which only its truthiness matters
    ([undefined], [null], a number, an array, an object, ...). *)
Inductive Any : Type :=
| any_string (s : string)
| any_other (is_truthy : bool).

Definition truthy (a : Any) : bool :=
  match a with
  | any_string s => negb (String.eqb s "")
  | any_other t => t
  end.

(** [a || b] *)
Definition js_or (a b : Any) : Any := if truthy a then a else b.

(** The two properties [onError] reads of the error, each of type [any];
    a missing one is [undefined]. *)
Record UploadError : Type := {
  detail : Any;
  message : Any
}.

(** [error?.response?.data?.detail || error.message || 'Upload failed']:
    what [onError] hands to [onUploadError]. *)
Definition onError_message (e : UploadError) : Any :=
  js_or (detail e) (js_or (message e) (any_string "Upload failed")).

End FileUpload.

(** ** The upload page ([app/page.tsx]) *)
Module UploadPage.

Record UploadResponse : Type := {
  contract_id : string;
  message : string;
  status : Types.ProcessingStatus
}.

(** The two [useState] cells; [null] is [None]. At run time [error] holds
    whatever the card handed over. *)
Record State : Type := {
  lastUpload : option UploadResponse;
  error : option FileUpload.Any
}.

Definition initial : State := {| lastUpload := None; error := None |}.

Definition handleUploadSuccess (response : UploadResponse) (s : State) : State :=
  {| lastUpload := Some response; error := None |}.

Definition handleUploadError (errorMessage : FileUpload.Any) (s : State)
  : State :=
  {| lastUpload := None; error := Some errorMessage |}.

(** What the upload card reports to the page. *)
Inductive Event : Type :=
| UploadSucceeded (response : UploadResponse)
| UploadFailed (e : FileUpload.UploadError).

Definition step (s : State) (ev : Event) : State :=
  match ev with
  | UploadSucceeded response => handleUploadSuccess response s
  | UploadFailed e => handleUploadError (FileUpload.onError_message e) s
  end.

Definition run (events : list Event) (s : State) : State :=
  foldl step s events.

(** [{lastUpload && ...}]: the green card and the message in it. *)
Definition success_card (s : State) : option string :=
  message <$> lastUpload s.

(** [{error && ...}]: the guard of the red card. For a truthy [error] the
    card is built with that value as the child of its paragraph; turning
    the child into text is React's part (a string is shown as it is). *)
Definition error_card (s : State) : option FileUpload.Any :=
  match error s with
  | Some msg => if FileUpload.truthy msg then Some msg else None
  | None => None
  end.

(** [handleViewContract]: the route pushed, if any. *)
Definition handleViewContract (s : State) : option string :=
  match lastUpload s with
  | Some r =>
      if decide (contract_id r = "") then None
      else Some ("/contracts/" +:+ contract_id r)
  | None => None
  end.

End UploadPage.
(** ** Properties of [lib/utils.ts] *)

(** C4, as the specification words it, refuted: with the thresholds set to
    (low 0.5, high 0.9) a confidence of 0.85 is of medium tier, yet
    [getConfidenceColor] paints it green: the function does not read any
    threshold setting. *)
Lemma getConfidenceColor_ignores_thresholds :
  let t := {| Utils.low_threshold := 0.5%float;
              Utils.high_threshold := 0.9%float |} in
  Utils.spec_classify t 0.85%float = Utils.tier_medium /\
  Utils.getConfidenceColor 0.85%float = "text-green-600" /\
  Utils.getConfidenceColor 0.85%float
    <> Utils.tier_color (Utils.spec_classify t 0.85%float).
Proof. vm_compute. repeat split; discriminate. Qed.

(** C4, amended: the classification functions take the confidence alone;
    each of the three is the threshold classifier at the fixed setting
    low = 0.6, high = 0.8, so a confidence of at least 0.8 is of high tier,
    one of at least 0.6 of medium tier, and anything else (also a NaN) of
    low tier. *)
Theorem confidence_classifiers_fixed_thresholds (confidence : float) :
  let tier := Utils.spec_classify Utils.client_thresholds confidence in
  Utils.getConfidenceColor confidence = Utils.tier_color tier /\
  Utils.getConfidenceBadgeVariant confidence = Utils.tier_badge tier /\
  ContractDetailPage.getConfidenceColor confidence
    = ContractDetailPage.tier_classes tier /\
  Utils.low_threshold Utils.client_thresholds = 0.6%float /\
  Utils.high_threshold Utils.client_thresholds = 0.8%float.
Proof.
  unfold Utils.getConfidenceColor, Utils.getConfidenceBadgeVariant,
    ContractDetailPage.getConfidenceColor, Utils.spec_classify,
    Utils.client_thresholds; simpl.
  destruct (Utils.js_ge confidence 0.8%float); [repeat split|].
  destruct (Utils.js_ge confidence 0.6%float); repeat split.
Qed.

Example getConfidenceColor_samples :
  Utils.getConfidenceColor 0.8%float = "text-green-600" /\
  Utils.getConfidenceColor 0.79%float = "text-yellow-600" /\
  Utils.getConfidenceColor 0.6%float = "text-yellow-600" /\
  Utils.getConfidenceColor 0.59%float = "text-red-600" /\
  Utils.getConfidenceColor PrimFloat.nan = "text-red-600".
Proof. vm_compute. repeat split. Qed.

Example formatFileSize_samples :
  Utils.formatFileSize 500 = "500 Bytes" /\
  Utils.formatFileSize 1024 = "1 KB" /\
  Utils.formatFileSize 1127 = "1.1 KB" /\
  Utils.formatFileSize 1536 = "1.5 KB" /\
  Utils.formatFileSize 1075 = "1.05 KB" /\
  Utils.formatFileSize (50 * 1024 * 1024) = "50 MB" /\
  Utils.formatFileSize (1024 ^ 4 - 1) = "1024 GB" /\
  Utils.formatFileSize (1024 ^ 4) = "1 undefined".
Proof. vm_compute. repeat split. Qed.

(** [unit_index] is the floor of the base-1024 logarithm: it brackets
    [bytes] between two consecutive powers of 1024. *)
Lemma unit_index_bracket (bytes : Z) :
  1 <= bytes ->
  0 <= Utils.unit_index bytes /\
  1024 ^ Utils.unit_index bytes <= bytes < 1024 ^ (Utils.unit_index bytes + 1).
Proof.
  intros Hb. unfold Utils.unit_index.
  pose proof (Z.log2_nonneg bytes) as Hl.
  destruct (Z.log2_spec bytes ltac:(lia)) as [Hlo Hhi].
  set (l := Z.log2 bytes) in *.
  assert (Hq : 0 <= l / 10) by (apply Z.div_pos; lia).
  assert (Hm : 10 * (l / 10) <= l < 10 * (l / 10) + 10).
  { pose proof (Z.div_mod l 10 ltac:(lia)).
    pose proof (Z.mod_pos_bound l 10 ltac:(lia)). lia. }
  split; [exact Hq|].
  change 1024 with (2 ^ 10).
  rewrite <- !Z.pow_mul_r by lia.
  split.
  - eapply Z.le_trans; [|exact Hlo]. apply Z.pow_le_mono_r; lia.
  - eapply Z.lt_le_trans; [exact Hhi|]. apply Z.pow_le_mono_r; lia.
Qed.

Lemma unit_index_below_TB (bytes : Z) :
  1 <= bytes < 1024 ^ 4 -> 0 <= Utils.unit_index bytes <= 3.
Proof.
  intros [Hb Hlt].
  destruct (unit_index_bracket bytes Hb) as [H0 [Hlo _]].
  split; [exact H0|].
  destruct (Z_le_gt_dec (Utils.unit_index bytes) 3) as [|Hgt]; [assumption|].
  assert (1024 ^ 4 <= 1024 ^ Utils.unit_index bytes)
    by (apply Z.pow_le_mono_r; lia).
  lia.
Qed.

Lemma unit_index_from_TB (bytes : Z) :
  1024 ^ 4 <= bytes -> 4 <= Utils.unit_index bytes.
Proof.
  intros Hb.
  assert (H1 : 1 <= bytes) by (assert (0 < 1024 ^ 4) by reflexivity; lia).
  destruct (unit_index_bracket bytes H1) as [H0 [_ Hhi]].
  destruct (Z_le_gt_dec 4 (Utils.unit_index bytes)) as [|Hlt]; [assumption|].
  assert (1024 ^ (Utils.unit_index bytes + 1) <= 1024 ^ 4)
    by (apply Z.pow_le_mono_r; lia).
  lia.
Qed.

(** [round_hundredths] is [Math.round]: the integer [h] with
    [h <= x + 1/2 < h + 1] for [x = bytes * 100 / 1024^i]. *)
Lemma round_hundredths_nearest (bytes i : Z) :
  0 <= i ->
  let h := Utils.round_hundredths bytes i in
  2 * 1024 ^ i * h <= 2 * (bytes * 100) + 1024 ^ i < 2 * 1024 ^ i * (h + 1).
Proof.
  intros Hi h. subst h. unfold Utils.round_hundredths.
  assert (Hp : 0 < 1024 ^ i) by (apply Z.pow_pos_nonneg; lia).
  set (d := 2 * 1024 ^ i). set (n := 2 * (bytes * 100) + 1024 ^ i).
  pose proof (Z.div_mod n d ltac:(lia)).
  pose proof (Z.mod_pos_bound n d ltac:(lia)).
  lia.
Qed.

(** C9: [formatFileSize 0] is ['0 Bytes']; for [1 <= bytes < 1024^4] the
    unit index is the floor of the base-1024 logarithm (the logarithm taken
    exactly), lies in 0..3, so the lookup in [sizes] succeeds and the result
    is the quotient rounded to hundredths followed by that unit, one of
    ['Bytes'], ['KB'], ['MB'], ['GB']; from [1024^4] on the lookup is
    outside the array. *)
Theorem formatFileSize_unit_in_bounds :
  Utils.formatFileSize 0 = "0 Bytes" /\
  (forall bytes : Z, 1 <= bytes < 1024 ^ 4 ->
     let i := Utils.unit_index bytes in
     let h := Utils.round_hundredths bytes i in
     0 <= i <= 3 /\
     1024 ^ i <= bytes < 1024 ^ (i + 1) /\
     2 * 1024 ^ i * h <= 2 * (bytes * 100) + 1024 ^ i < 2 * 1024 ^ i * (h + 1) /\
     exists u : string,
       Utils.sizes !! Z.to_nat i = Some u /\
       u ∈ ["Bytes"; "KB"; "MB"; "GB"] /\
       Utils.formatFileSize bytes = Utils.hundredths_to_string h +:+ " " +:+ u) /\
  (forall bytes : Z, 1024 ^ 4 <= bytes ->
     Utils.sizes !! Z.to_nat (Utils.unit_index bytes) = None /\
     Utils.unit_label (Utils.unit_index bytes) = "undefined").
Proof.
  split; [reflexivity|]. split.
  - intros bytes Hb i h.
    pose proof (unit_index_below_TB bytes Hb) as Hi.
    destruct (unit_index_bracket bytes ltac:(lia)) as [_ Hbr].
    fold i in Hi, Hbr.
    split; [exact Hi|]. split; [exact Hbr|].
    split; [apply round_hundredths_nearest; lia|].
    unfold Utils.formatFileSize.
    destruct (decide (bytes = 0)) as [->|_]; [lia|].
    destruct (decide (bytes < 0)) as [?|_]; [lia|].
    fold i. fold h. unfold Utils.unit_label.
    assert (Hcases : i = 0 \/ i = 1 \/ i = 2 \/ i = 3) by lia.
    clearbody h. clearbody i. clear Hi Hbr Hb.
    destruct Hcases as [Hc | [Hc | [Hc | Hc]]]; rewrite Hc; simpl;
      eexists; (split; [reflexivity|]); (split; [|reflexivity]);
      set_solver.
  - intros bytes Hb.
    pose proof (unit_index_from_TB bytes Hb).
    assert (Hnone : Utils.sizes !! Z.to_nat (Utils.unit_index bytes) = None)
      by (apply lookup_ge_None; simpl; lia).
    split; [exact Hnone|]. unfold Utils.unit_label. by rewrite Hnone.
Qed.

Lemma formatFileSize_unit_in_bounds_witness :
  1 <= 1536 < 1024 ^ 4 /\ Utils.formatFileSize 1536 = "1.5 KB".
Proof.
  split; [split; [lia | reflexivity]|].
  destruct formatFileSize_unit_in_bounds as [_ [H _]].
  destruct (H 1536 ltac:(split; [lia | reflexivity]))
    as [_ [_ [_ [u [Hu [_ ->]]]]]].
  vm_compute in Hu. injection Hu as <-. vm_compute. reflexivity.
Defined.

(** ** Properties of the data model ([types/index.ts]) *)

(** C1, as stated, refuted: a field whose evidence comes from the fallback
    extractor carries the tag ['llm'], which is neither ['rule'] nor
    ['model']. *)
Lemma evidence_source_tag_is_llm :
  let e := {| Types.page := 2; Types.snippet := "payment due in 30 days";
              Types.source := Types.Llm |} in
  let f := {| Types.value := JsStr "Net 30"; Types.confidence := 0.7%float;
              Types.evidence := Some e |} in
  Engine.to_field
    (Engine.extract 0.5%float None
       (Some {| Engine.model_value := Some (JsStr "Net 30");
                Engine.model_confidence := Some 0.7%float;
                Engine.model_locality := Some (2, "payment due in 30 days") |}))
    = Some f /\
  Types.evidence f = Some e /\
  Types.FieldEvidence_object e !! "source" = Some (JsStr "llm") /\
  Types.EvidenceSource_literal (Types.source e) ∉ ["rule"; "model"].
Proof.
  simpl. split; [reflexivity|]. split; [reflexivity|]. split; [reflexivity|].
  intros H. repeat (apply elem_of_cons in H as [H | H]; [discriminate H|]).
  by apply elem_of_nil in H.
Qed.

Lemma FieldEvidence_object_shape (e : Types.FieldEvidence) :
  let o := Types.FieldEvidence_object e in
  dom o = ({[ "page"; "snippet"; "source" ]} : gset string) /\
  o !! "page" = Some (JsNum (Types.page e)) /\
  o !! "snippet" = Some (JsStr (Types.snippet e)) /\
  o !! "source" = Some (JsStr (Types.EvidenceSource_literal (Types.source e))).
Proof.
  unfold Types.FieldEvidence_object.
  split; [rewrite !dom_insert_L, dom_empty_L; set_solver|].
  repeat split; by simplify_map_eq.
Qed.

(** The evidence of an engine result carries the tag of the strategy that
    produced it. *)
Lemma to_field_source (m : Engine.MatchResult)
  (f : Types.ExtractedField) (e : Types.FieldEvidence) :
  Engine.to_field m = Some f -> Types.evidence f = Some e ->
  Types.source e = if Engine.from_fallback m then Types.Llm else Types.Rule.
Proof.
  destruct m as [hit | v c [l|] |]; simpl; intros Hf He;
    try discriminate Hf; injection Hf as <-; simpl in He;
    try discriminate He; by injection He as <-.
Qed.

(** C1, amended: every field the extraction produces with evidence has an
    evidence object with exactly the properties [page], [snippet] and
    [source]; its source tag is ['rule'] when the rule pass produced the
    value and ['llm'] when the probabilistic fallback did, and no other
    tag occurs; both do occur. *)
Theorem evidence_shape_and_source_tag
  (needs_confirmation : float) (rule : option Engine.RuleHit)
  (secondary : option Engine.ModelAnswer)
  (f : Types.ExtractedField) (e : Types.FieldEvidence) :
  Engine.to_field (Engine.extract needs_confirmation rule secondary) = Some f ->
  Types.evidence f = Some e ->
  (dom (Types.FieldEvidence_object e)
     = ({[ "page"; "snippet"; "source" ]} : gset string) /\
   Types.FieldEvidence_object e !! "page" = Some (JsNum (Types.page e)) /\
   Types.FieldEvidence_object e !! "snippet" = Some (JsStr (Types.snippet e)) /\
   Types.FieldEvidence_object e !! "source"
     = Some (JsStr (Types.EvidenceSource_literal (Types.source e)))) /\
  Types.EvidenceSource_literal (Types.source e) ∈ ["rule"; "llm"] /\
  (Engine.from_fallback (Engine.extract needs_confirmation rule secondary) = true
   <-> Types.EvidenceSource_literal (Types.source e) = "llm") /\
  (Engine.from_fallback (Engine.extract needs_confirmation rule secondary) = false
   <-> Types.EvidenceSource_literal (Types.source e) = "rule") /\
  (forall tag : string, tag ∈ ["rule"; "llm"] ->
     exists rule' secondary' f' e',
       Engine.to_field (Engine.extract needs_confirmation rule' secondary')
         = Some f' /\
       Types.evidence f' = Some e' /\
       Types.EvidenceSource_literal (Types.source e') = tag).
Proof.
  intros Hf He.
  pose proof (to_field_source _ f e Hf He) as Hsrc.
  split; [exact (FieldEvidence_object_shape e)|].
  assert (Hboth : forall tag : string, tag ∈ ["rule"; "llm"] ->
     exists rule' secondary' f' e',
       Engine.to_field (Engine.extract needs_confirmation rule' secondary')
         = Some f' /\
       Types.evidence f' = Some e' /\
       Types.EvidenceSource_literal (Types.source e') = tag).
  { intros tag Htag.
    apply elem_of_cons in Htag as [-> | Htag].
    - exists (Some {| Engine.rule_value := JsStr "2024-01-15";
                      Engine.rule_confidence := 0.9%float;
                      Engine.rule_page := 1;
                      Engine.rule_snippet := "Effective Date: 2024-01-15" |}),
             None.
      unfold Engine.extract. simpl.
      destruct (PrimFloat.ltb _ _); simpl; eexists _, _;
        (split; [reflexivity|]); split; reflexivity.
    - apply list_elem_of_singleton in Htag as ->.
      exists None,
             (Some {| Engine.model_value := Some (JsStr "Net 30");
                      Engine.model_confidence := Some 0.7%float;
                      Engine.model_locality :=
                        Some (2, "payment due in 30 days") |}).
      simpl. eexists _, _. split; [reflexivity|]. split; reflexivity. }
  rewrite Hsrc.
  destruct (Engine.from_fallback _); simpl.
  - split; [apply elem_of_cons; right; apply elem_of_cons; by left|].
    split; [done|]. split; [split; intros H; discriminate H | exact Hboth].
  - split; [apply elem_of_cons; by left|].
    split; [split; intros H; discriminate H|]. split; [done | exact Hboth].
Qed.

Lemma evidence_shape_and_source_tag_witness :
  let answer := {| Engine.model_value := Some (JsStr "Net 30");
                   Engine.model_confidence := Some 0.7%float;
                   Engine.model_locality := Some (2, "payment due in 30 days") |} in
  let e := {| Types.page := 2; Types.snippet := "payment due in 30 days";
              Types.source := Types.Llm |} in
  Types.EvidenceSource_literal (Types.source e) = "llm".
Proof.
  intros answer e.
  pose (f := {| Types.value := JsStr "Net 30"; Types.confidence := 0.7%float;
                Types.evidence := Some e |}).
  apply (proj1 (proj2 (proj2
    (evidence_shape_and_source_tag 0.5%float None (Some answer) f e
       eq_refl eq_refl)))).
  reflexivity.
Defined.







(** ** Properties of the reprocess command ([lib/api.ts], detail page) *)

Lemma ReprocessOptions_object_lookup (o : Api.ReprocessOptions) :
  Api.ReprocessOptions_object o !! "use_ocr" = JsBool <$> Api.use_ocr o /\
  Api.ReprocessOptions_object o !! "use_llm" = JsBool <$> Api.use_llm o.
Proof.
  unfold Api.ReprocessOptions_object, opt_entry.
  destruct (Api.use_ocr o), (Api.use_llm o); simpl; split; by simplify_map_eq.
Qed.

Lemma ReprocessOptions_object_other (o : Api.ReprocessOptions) (k : string) :
  k <> "use_ocr" -> k <> "use_llm" -> Api.ReprocessOptions_object o !! k = None.
Proof.
  intros H1 H2. unfold Api.ReprocessOptions_object, opt_entry.
  destruct (Api.use_ocr o), (Api.use_llm o); simpl; by simplify_map_eq.
Qed.

(** C3, as stated, refuted: a reprocess call that overrides the fallback
    extractor carries the override as [use_llm]; no call ever carries a
    parameter [use_model]. *)
Lemma reprocess_override_is_use_llm :
  let r := Api.reprocessContract "c1"
             {| Api.use_ocr := None; Api.use_llm := Some true |} in
  Api.params r !! "use_llm" = Some (JsBool true) /\
  Api.params r !! "use_model" = None /\
  ~ dom (Api.params r) ⊆ ({[ "use_ocr"; "use_model" ]} : gset string).
Proof.
  simpl. unfold Api.ReprocessOptions_object, opt_entry; simpl.
  split; [by simplify_map_eq|]. split; [by simplify_map_eq|].
  intros Hsub.
  assert (Hin : "use_llm" ∈ dom (<["use_llm" := JsBool true]>
                                   (∅ : gmap string JsValue)))
    by (apply elem_of_dom; eexists; by simplify_map_eq).
  apply Hsub in Hin.
  apply elem_of_union in Hin as [Hin | Hin];
    apply elem_of_singleton in Hin; discriminate Hin.
Qed.

(** C3, amended: the reprocess command accepts exactly the optional boolean
    overrides [use_ocr] and [use_llm], sent as query parameters of
    [POST /contracts/<id>/reprocess]; the one reprocess request the client
    itself issues carries [use_ocr = true] and nothing else. *)
Theorem reprocess_request_parameters
  (contractId : string) (options : Api.ReprocessOptions) :
  let r := Api.reprocessContract contractId options in
  Api.method r = Api.POST /\
  Api.url r = "/contracts/" +:+ contractId +:+ "/reprocess" /\
  Api.params r !! "use_ocr" = JsBool <$> Api.use_ocr options /\
  Api.params r !! "use_llm" = JsBool <$> Api.use_llm options /\
  (forall k : string, is_Some (Api.params r !! k) ->
     k = "use_ocr" \/ k = "use_llm") /\
  (forall (contract : option Types.Contract) (accepted : bool) (q : Api.Request),
     q ∈ ContractDetailPage.handleReprocess contract accepted ->
     Api.method q = Api.POST ->
     exists c, contract = Some c /\
       q = Api.reprocessContract (Types.id c)
             {| Api.use_ocr := Some true; Api.use_llm := None |} /\
       Api.params q = {[ "use_ocr" := JsBool true ]}).
Proof.
  intros r. subst r. simpl.
  destruct (ReprocessOptions_object_lookup options) as [Hocr Hllm].
  repeat (split; [done|]).
  split.
  - intros k [v Hk].
    destruct (decide (k = "use_ocr")) as [|Hn1]; [by left|].
    destruct (decide (k = "use_llm")) as [|Hn2]; [by right|].
    rewrite ReprocessOptions_object_other in Hk by assumption. discriminate.
  - intros [c|] accepted q Hq Hpost; simpl in Hq.
    + exists c. split; [reflexivity|].
      apply elem_of_cons in Hq as [-> | Hq]; [split; reflexivity|].
      destruct accepted.
      * apply list_elem_of_singleton in Hq as ->. discriminate Hpost.
      * by apply elem_of_nil in Hq.
    + by apply elem_of_nil in Hq.
Qed.

(** ** Properties of the detail page *)

Lemma header_buttons_reprocess (c : Types.Contract) :
  Exists (fun b => ContractDetailPage.onClick b
                   = ContractDetailPage.handleReprocessClick)
    (ContractDetailPage.header_buttons c)
  <-> Types.status c = Types.Completed.
Proof.
  unfold ContractDetailPage.header_buttons.
  destruct (decide (Types.status c = Types.Completed)) as [Hc | Hc]; simpl.
  - split; [done|]. intros _. apply Exists_cons_tl, Exists_cons_hd. reflexivity.
  - split; [|done]. intros H.
    repeat (apply Exists_cons in H as [H | H]; [discriminate H|]).
    by apply Exists_nil in H.
Qed.

(** C6: the detail page offers a button bound to [handleReprocess] exactly
    when the contract is completed ([Reprocess]) or failed ([Try Again],
    next to the error message); while it is pending or processing, while
    the page loads, and on the not-found card there is none. A click issues
    the reprocess request for that contract. *)
Theorem reprocess_offered_iff_completed_or_failed (c : Types.Contract) :
  (Exists (fun b => ContractDetailPage.onClick b
                    = ContractDetailPage.handleReprocessClick)
     (ContractDetailPage.buttons false false (Some c))
   <-> Types.status c = Types.Completed \/ Types.status c = Types.Failed) /\
  (Types.status c = Types.Failed ->
     ContractDetailPage.error_state c =
       Some (or_else (Types.error_message (Types.processing c))
               "An error occurred during processing",
             {| ContractDetailPage.label := "Try Again";
                ContractDetailPage.onClick :=
                  ContractDetailPage.handleReprocessClick |})) /\
  (Types.status c = Types.Pending \/ Types.status c = Types.Processing ->
     ContractDetailPage.offers_reprocess c = false) /\
  (forall (error : bool) (contract : option Types.Contract),
     Forall (fun b => ContractDetailPage.onClick b
                      <> ContractDetailPage.handleReprocessClick)
       (ContractDetailPage.buttons true error contract ++
        ContractDetailPage.buttons false true contract ++
        ContractDetailPage.buttons false error None)) /\
  (forall accepted : bool,
     head (ContractDetailPage.handleReprocess (Some c) accepted) =
       Some (Api.reprocessContract (Types.id c)
               {| Api.use_ocr := Some true; Api.use_llm := None |})).
Proof.
  assert (Hiff :
    Exists (fun b => ContractDetailPage.onClick b
                     = ContractDetailPage.handleReprocessClick)
      (ContractDetailPage.buttons false false (Some c))
    <-> Types.status c = Types.Completed \/ Types.status c = Types.Failed).
  { unfold ContractDetailPage.buttons. rewrite Exists_app.
    rewrite header_buttons_reprocess.
    unfold ContractDetailPage.error_state.
    destruct (decide (Types.status c = Types.Failed)) as [Hf | Hf].
    - split; [intros _; by right|]. intros _. right.
      apply Exists_cons_hd. reflexivity.
    - split; [intros [H | H]; [by left | by apply Exists_nil in H]|].
      intros [H | H]; [by left | done]. }
  split; [exact Hiff|]. split; [|split; [|split]].
  - intros Hf. unfold ContractDetailPage.error_state.
    destruct (decide (Types.status c = Types.Failed)); done.
  - intros Hst. unfold ContractDetailPage.offers_reprocess.
    apply bool_decide_eq_false. rewrite Hiff.
    intros [H | H]; destruct Hst as [H' | H']; congruence.
  - intros error contract. unfold ContractDetailPage.buttons.
    destruct error, contract; simpl; repeat constructor; discriminate.
  - intros accepted. reflexivity.
Qed.

(** ** Properties of interval polling *)

(** While the interval function answers [ms] for every datum shown, the
    query is re-issued every [ms] milliseconds. *)
Lemma refetch_times_steady {D : Type}
  (interval : option D -> option Z) (ms now : Z) (shown : list D) :
  Forall (fun d => interval (Some d) = Some ms) shown ->
  refetch_times interval now shown =
    (fun k : nat => now + ms * Z.of_nat (S k)) <$> seq 0 (length shown).
Proof.
  intros Hall. revert now.
  induction Hall as [| d later Hd _ IH]; intros now; simpl; [reflexivity|].
  rewrite Hd. f_equal; [lia|].
  rewrite IH. rewrite <- fmap_S_seq, <- list_fmap_compose.
  apply list_fmap_ext. intros _ k _. simpl. lia.
Qed.

Lemma ContractsPage_hasProcessing_spec (d : Types.ContractListResponse) :
  ContractsPage.hasProcessing (Some d) = true <->
  exists c, c ∈ Types.contracts d /\ Types.status c = Types.Processing.
Proof.
  unfold ContractsPage.hasProcessing. rewrite existsb_exists.
  split; intros (c & Hin & Hs); exists c.
  - split; [by apply list_elem_of_In|]. by apply bool_decide_eq_true in Hs.
  - split; [by apply list_elem_of_In|]. by apply bool_decide_eq_true.
Qed.

(** Once a datum is shown for which the interval function answers [false],
    no further refetch is armed, whatever would come later. *)
Lemma refetch_times_stop {D : Type}
  (interval : option D -> option Z) (ms now : Z) (before : list D)
  (d : D) (later : list D) :
  Forall (fun x => interval (Some x) = Some ms) before ->
  interval (Some d) = None ->
  refetch_times interval now (before ++ d :: later) =
    refetch_times interval now before.
Proof.
  intros Hall Hd. revert now.
  induction Hall as [| x xs Hx _ IH]; intros now; simpl.
  - by rewrite Hd.
  - rewrite Hx. by rewrite IH.
Qed.

Lemma list_refetchInterval_processing (d : Types.ContractListResponse) :
  (exists c, c ∈ Types.contracts d /\ Types.status c = Types.Processing) ->
  ContractsPage.refetchInterval (Some d) = Some 5000.
Proof.
  intros H. apply ContractsPage_hasProcessing_spec in H.
  unfold ContractsPage.refetchInterval. by rewrite H.
Qed.

Lemma list_refetchInterval_idle (d : Types.ContractListResponse) :
  (forall c, c ∈ Types.contracts d -> Types.status c <> Types.Processing) ->
  ContractsPage.refetchInterval (Some d) = None.
Proof.
  intros H. unfold ContractsPage.refetchInterval.
  destruct (ContractsPage.hasProcessing (Some d)) eqn:E; [|reflexivity].
  apply ContractsPage_hasProcessing_spec in E as (c & Hin & Hs).
  by destruct (H c Hin).
Qed.

(** C8: the detail page re-issues its query 5000 ms after each fetch that
    shows a processing contract, and the list page 5000 ms after each fetch
    that shows at least one; a fetch that shows none (completed, failed,
    pending contracts, or no data) arms no timer, and polling ends there. *)
Theorem polling_every_5000ms_while_processing :
  (forall c : Types.Contract, Types.status c = Types.Processing ->
     ContractDetailPage.refetchInterval (Some c) = Some 5000) /\
  (forall c : Types.Contract, Types.status c <> Types.Processing ->
     ContractDetailPage.refetchInterval (Some c) = None) /\
  ContractDetailPage.refetchInterval None = None /\
  (forall d : Types.ContractListResponse,
     (exists c, c ∈ Types.contracts d /\ Types.status c = Types.Processing) ->
     ContractsPage.refetchInterval (Some d) = Some 5000) /\
  (forall d : Types.ContractListResponse,
     (forall c, c ∈ Types.contracts d -> Types.status c <> Types.Processing) ->
     ContractsPage.refetchInterval (Some d) = None) /\
  ContractsPage.refetchInterval None = None /\
  (forall (now : Z) (shown : list Types.Contract),
     Forall (fun c => Types.status c = Types.Processing) shown ->
     refetch_times ContractDetailPage.refetchInterval now shown =
       (fun k : nat => now + 5000 * Z.of_nat (S k)) <$> seq 0 (length shown)) /\
  (forall (now : Z) (before : list Types.Contract) (c : Types.Contract)
          (later : list Types.Contract),
     Forall (fun x => Types.status x = Types.Processing) before ->
     Types.status c <> Types.Processing ->
     refetch_times ContractDetailPage.refetchInterval now (before ++ c :: later)
       = (fun k : nat => now + 5000 * Z.of_nat (S k))
           <$> seq 0 (length before)) /\
  (forall (now : Z) (before : list Types.ContractListResponse)
          (d : Types.ContractListResponse)
          (later : list Types.ContractListResponse),
     Forall (fun x => exists c, c ∈ Types.contracts x
                       /\ Types.status c = Types.Processing) before ->
     (forall c, c ∈ Types.contracts d -> Types.status c <> Types.Processing) ->
     refetch_times ContractsPage.refetchInterval now (before ++ d :: later)
       = (fun k : nat => now + 5000 * Z.of_nat (S k))
           <$> seq 0 (length before)).
Proof.
  assert (Hon : forall c : Types.Contract,
            Types.status c = Types.Processing ->
            ContractDetailPage.refetchInterval (Some c) = Some 5000).
  { intros c Hc. simpl. by rewrite decide_True. }
  assert (Hoff : forall c : Types.Contract,
            Types.status c <> Types.Processing ->
            ContractDetailPage.refetchInterval (Some c) = None).
  { intros c Hc. simpl. by rewrite decide_False. }
  split; [exact Hon|]. split; [exact Hoff|]. split; [reflexivity|].
  split; [exact list_refetchInterval_processing|].
  split; [exact list_refetchInterval_idle|]. split; [reflexivity|].
  split; [|split].
  - intros now shown Hall. apply refetch_times_steady.
    eapply Forall_impl; [exact Hall|]. exact Hon.
  - intros now before c later Hall Hc.
    assert (Hall' : Forall (fun x => ContractDetailPage.refetchInterval (Some x)
                                     = Some 5000) before)
      by (eapply Forall_impl; [exact Hall | exact Hon]).
    rewrite (refetch_times_stop _ 5000 now before c later Hall' (Hoff c Hc)).
    by apply refetch_times_steady.
  - intros now before d later Hall Hd.
    assert (Hall' : Forall (fun x => ContractsPage.refetchInterval (Some x)
                                     = Some 5000) before)
      by (eapply Forall_impl; [exact Hall | exact list_refetchInterval_processing]).
    rewrite (refetch_times_stop _ 5000 now before d later Hall'
               (list_refetchInterval_idle d Hd)).
    by apply refetch_times_steady.
Qed.

(** ** Properties of the list page *)

Lemma opt_entry_is_Some (k : string) (v : option JsValue)
  (o : gmap string JsValue) (j : string) :
  is_Some (opt_entry k v o !! j) -> j = k \/ is_Some (o !! j).
Proof.
  unfold opt_entry. destruct v as [x|]; [|by right].
  destruct (decide (k = j)) as [-> | Hne]; [by left|].
  rewrite lookup_insert_ne by done. by right.
Qed.

Lemma queryFn_params_lookup (s : ContractsPage.State) :
  let o := Api.params (ContractsPage.queryFn s) in
  o !! "page" = Some (JsNum (ContractsPage.page s)) /\
  o !! "limit" = Some (JsNum 10) /\
  o !! "status" = (if decide (ContractsPage.statusFilter s = "") then None
                   else Some (JsStr (ContractsPage.statusFilter s))) /\
  o !! "sort_by" = Some (JsStr (ContractsPage.sortBy s)) /\
  o !! "sort_order" = Some (JsStr (ContractsPage.sortOrder s)) /\
  (forall k : string, is_Some (o !! k) ->
     k ∈ ["page"; "limit"; "status"; "sort_by"; "sort_order"]).
Proof.
  simpl. unfold Api.ListContractsParams_object. simpl.
  split; [|split; [|split; [|split; [|split]]]].
  - unfold opt_entry; simpl. by simplify_map_eq.
  - unfold opt_entry; simpl. by simplify_map_eq.
  - unfold opt_entry; simpl.
    destruct (decide (ContractsPage.statusFilter s = "")); simpl;
      by simplify_map_eq.
  - unfold opt_entry; simpl.
    destruct (decide (ContractsPage.statusFilter s = "")); simpl;
      by simplify_map_eq.
  - unfold opt_entry; simpl.
    destruct (decide (ContractsPage.statusFilter s = "")); simpl;
      by simplify_map_eq.
  - intros k Hk.
    repeat (apply opt_entry_is_Some in Hk as [-> | Hk]; [set_solver|]).
    destruct Hk as [v Hk]. by rewrite lookup_empty in Hk.
Qed.

Lemma target_value_elem (options : list (string * string)) (i : nat) (x : string) :
  ContractsPage.target_value options i = Some x -> x ∈ (fst <$> options).
Proof.
  unfold ContractsPage.target_value. intros H.
  rewrite <- list_lookup_fmap in H. by eapply list_elem_of_lookup_2.
Qed.

Lemma initial_selects_consistent :
  ContractsPage.selects_consistent ContractsPage.initial.
Proof. unfold ContractsPage.selects_consistent. simpl. set_solver. Qed.

Lemma step_selects_consistent
  (v : ContractsPage.View) (s : ContractsPage.State) (e : ContractsPage.Event) :
  ContractsPage.selects_consistent s ->
  ContractsPage.selects_consistent (ContractsPage.step v s e).
Proof.
  intros (H1 & H2 & H3). destruct v as [| | d]; simpl; [done | done |].
  destruct e as [i | i | i | |]; simpl.
  - destruct (ContractsPage.target_value _ i) as [x|] eqn:E; [|done].
    apply target_value_elem in E. by repeat split.
  - destruct (ContractsPage.target_value _ i) as [x|] eqn:E; [|done].
    apply target_value_elem in E. by repeat split.
  - destruct (ContractsPage.target_value _ i) as [x|] eqn:E; [|done].
    apply target_value_elem in E. by repeat split.
  - destruct (_ && _); by repeat split.
  - destruct (_ && _); by repeat split.
Qed.

Lemma run_selects_consistent
  (trace : list (ContractsPage.View * ContractsPage.Event))
  (s : ContractsPage.State) :
  ContractsPage.selects_consistent s ->
  ContractsPage.selects_consistent (ContractsPage.run trace s).
Proof.
  revert s. induction trace as [| [v e] rest IH]; intros s Hs; simpl; [done|].
  apply IH. by apply step_selects_consistent.
Qed.

Lemma status_option_literal (x : string) :
  x ∈ (fst <$> ContractsPage.status_options) ->
  x = "" \/ exists st : Types.ProcessingStatus,
              x = Types.ProcessingStatus_literal st.
Proof.
  simpl. intros H.
  apply elem_of_cons in H as [-> | H]; [by left|]. right.
  apply elem_of_cons in H as [-> | H]; [by exists Types.Pending|].
  apply elem_of_cons in H as [-> | H]; [by exists Types.Processing|].
  apply elem_of_cons in H as [-> | H]; [by exists Types.Completed|].
  apply elem_of_cons in H as [-> | H]; [by exists Types.Failed|].
  by apply elem_of_nil in H.
Qed.

(** C7: whatever the user has done on the list page, the list request it
    issues is [GET /contracts] with [page], [limit = 10], a [status] that
    is absent or one of the four statuses, a [sort_by] among [uploaded_at],
    [overall_score], [filename], and a [sort_order] of [asc] or [desc], and
    no other parameter; the page's selects offer exactly these three sort
    keys and two orders. *)
Theorem list_request_parameters
  (trace : list (ContractsPage.View * ContractsPage.Event)) :
  let s := ContractsPage.run trace ContractsPage.initial in
  let r := ContractsPage.queryFn s in
  Api.method r = Api.GET /\ Api.url r = "/contracts" /\
  Api.params r !! "page" = Some (JsNum (ContractsPage.page s)) /\
  Api.params r !! "limit" = Some (JsNum 10) /\
  (Api.params r !! "status" = None \/
   exists st : Types.ProcessingStatus,
     Api.params r !! "status"
       = Some (JsStr (Types.ProcessingStatus_literal st))) /\
  (exists k : string, Api.params r !! "sort_by" = Some (JsStr k) /\
     k ∈ ["uploaded_at"; "overall_score"; "filename"]) /\
  (exists o : string, Api.params r !! "sort_order" = Some (JsStr o) /\
     (o = "asc" \/ o = "desc")) /\
  (forall k : string, is_Some (Api.params r !! k) ->
     k ∈ ["page"; "limit"; "status"; "sort_by"; "sort_order"]) /\
  fst <$> ContractsPage.sort_by_options
    = ["uploaded_at"; "overall_score"; "filename"] /\
  fst <$> ContractsPage.sort_order_options = ["desc"; "asc"].
Proof.
  intros s r.
  destruct (run_selects_consistent trace _ initial_selects_consistent)
    as (Hst & Hby & Hord). fold s in Hst, Hby, Hord.
  destruct (queryFn_params_lookup s) as (Hp & Hl & Hs & Hb & Ho & Hdom).
  fold r in Hp, Hl, Hs, Hb, Ho, Hdom.
  split; [reflexivity|]. split; [reflexivity|].
  split; [exact Hp|]. split; [exact Hl|].
  split.
  { rewrite Hs. destruct (decide (ContractsPage.statusFilter s = "")) as [|Hne];
      [by left|]. right.
    destruct (status_option_literal _ Hst) as [? | [st ->]]; [done|].
    by exists st. }
  split; [eexists; split; [exact Hb | exact Hby]|].
  split.
  { eexists; split; [exact Ho|]. simpl in Hord.
    apply elem_of_cons in Hord as [-> | Hord]; [by right|].
    apply elem_of_cons in Hord as [-> | Hord]; [by left|].
    by apply elem_of_nil in Hord. }
  split; [exact Hdom|]. split; reflexivity.
Qed.

(** [total_pages] is the ceiling of [total / 10]. *)
Lemma total_pages_ceiling (total : Z) :
  10 * (ContractsPage.total_pages total - 1) < total
    <= 10 * ContractsPage.total_pages total.
Proof.
  unfold ContractsPage.total_pages.
  pose proof (Z.div_mod (- total) 10 ltac:(lia)).
  pose proof (Z.mod_pos_bound (- total) 10 ltac:(lia)).
  lia.
Qed.

(** A click under a view that shows [total] contracts keeps the page in
    range. *)
Lemma step_page_in_range (total : Z)
  (v : ContractsPage.View) (s : ContractsPage.State) (e : ContractsPage.Event) :
  (forall t, ContractsPage.view_total v = Some t -> t = total) ->
  1 <= ContractsPage.page s <= ContractsPage.total_pages total ->
  1 <= ContractsPage.page (ContractsPage.step v s e)
    <= ContractsPage.total_pages total.
Proof.
  intros Hv Hs. destruct v as [| | d]; simpl; [done | done |].
  specialize (Hv (Types.total d) eq_refl).
  destruct e as [i | i | i | |]; simpl.
  - by destruct (ContractsPage.target_value _ i).
  - by destruct (ContractsPage.target_value _ i).
  - by destruct (ContractsPage.target_value _ i).
  - unfold ContractsPage.previous_disabled.
    destruct (ContractsPage.pagination_rendered d); simpl; [|done].
    case_bool_decide; simpl; lia.
  - unfold ContractsPage.next_disabled. rewrite Hv.
    destruct (ContractsPage.pagination_rendered d); simpl; [|done].
    case_bool_decide; simpl; lia.
Qed.

(** Without the pagination controls (no data, or at most ten contracts) a
    click changes nothing. *)
Lemma click_without_controls
  (v : ContractsPage.View) (s : ContractsPage.State) :
  (forall t, ContractsPage.view_total v = Some t -> t <= 10) ->
  ContractsPage.step v s ContractsPage.ClickPrevious = s /\
  ContractsPage.step v s ContractsPage.ClickNext = s.
Proof.
  intros Hv. destruct v as [| | d]; simpl; [done | done |].
  specialize (Hv _ eq_refl). unfold ContractsPage.pagination_rendered.
  rewrite bool_decide_eq_false_2 by lia. done.
Qed.

(** C10, as stated, refuted: on an empty list the page is 1 while
    [ceil(0 / 10)] is 0; and when the list shrinks between two fetches
    (25 contracts, then 12) two clicks on [Next] followed by one more leave
    the page at 3 with the controls on screen and [ceil(12 / 10)] at 2. *)
Lemma page_leaves_range_without_fixed_total :
  let d25 := {| Types.total := 25; Types.resp_page := 1; Types.limit := 10;
                Types.contracts := [] |} in
  let d12 := {| Types.total := 12; Types.resp_page := 3; Types.limit := 10;
                Types.contracts := [] |} in
  let clicks := [(ContractsPage.Loaded d25, ContractsPage.ClickNext);
                 (ContractsPage.Loaded d25, ContractsPage.ClickNext);
                 (ContractsPage.Loaded d12, ContractsPage.ClickNext)] in
  ~ (1 <= ContractsPage.page (ContractsPage.run [] ContractsPage.initial)
       <= ContractsPage.total_pages 0) /\
  ContractsPage.page (ContractsPage.run clicks ContractsPage.initial) = 3 /\
  ContractsPage.pagination_rendered d12 = true /\
  ContractsPage.total_pages (Types.total d12) = 2 /\
  ~ (1 <= ContractsPage.page (ContractsPage.run clicks ContractsPage.initial)
       <= ContractsPage.total_pages (Types.total d12)).
Proof.
  vm_compute. repeat split; try reflexivity; intros [H1 H2]; by apply H2.
Qed.

(** C10, amended: on a list of [total] contracts, from page 1, no sequence of
    clicks takes the page out of [1 .. ceil(total / 10)], provided the
    list is not empty and its total is the same under every click:
    [Previous] is disabled at page 1, [Next] at the last page, and with at
    most ten contracts, where the buttons are not rendered, the page
    stays 1. *)
Theorem page_stays_in_range (total : Z)
  (trace : list (ContractsPage.View * ContractsPage.Event)) :
  0 < total ->
  Forall (fun ve => forall t, ContractsPage.view_total ve.1 = Some t -> t = total)
    trace ->
  1 <= ContractsPage.page (ContractsPage.run trace ContractsPage.initial)
    <= ContractsPage.total_pages total /\
  (total <= 10 ->
   ContractsPage.page (ContractsPage.run trace ContractsPage.initial) = 1).
Proof.
  intros Htotal Htrace.
  assert (Hrange :
    1 <= ContractsPage.page (ContractsPage.run trace ContractsPage.initial)
      <= ContractsPage.total_pages total).
  { assert (Hinit : 1 <= ContractsPage.page ContractsPage.initial
                      <= ContractsPage.total_pages total).
    { pose proof (total_pages_ceiling total). simpl. lia. }
    revert Hinit. generalize ContractsPage.initial.
    induction Htrace as [| [v e] rest Hv _ IH]; intros s Hs; simpl; [exact Hs|].
    apply IH. by apply step_page_in_range. }
  split; [exact Hrange|].
  intros Hsmall. pose proof (total_pages_ceiling total). lia.
Qed.

Lemma page_stays_in_range_witness :
  let d := {| Types.total := 25; Types.resp_page := 1; Types.limit := 10;
              Types.contracts := [] |} in
  let trace := [(ContractsPage.Loaded d, ContractsPage.ClickNext);
                (ContractsPage.Loaded d, ContractsPage.ClickNext);
                (ContractsPage.Loaded d, ContractsPage.ClickNext);
                (ContractsPage.Loading, ContractsPage.ClickNext);
                (ContractsPage.Loaded d, ContractsPage.ClickPrevious)] in
  0 < 25 /\
  1 <= ContractsPage.page (ContractsPage.run trace ContractsPage.initial) <= 3.
Proof.
  intros d trace. split; [lia|].
  apply (proj1 (page_stays_in_range 25 trace ltac:(lia)
                  ltac:(repeat constructor; simpl; intros t Ht; congruence))).
Defined.

(** ** Properties of the upload card *)

Lemma sort_files_cons (o : Dropzone.Options) (f : File) (rest : list File) :
  Dropzone.sort_files o (f :: rest) =
    if Dropzone.file_ok o f
    then (f :: (Dropzone.sort_files o rest).1, (Dropzone.sort_files o rest).2)
    else ((Dropzone.sort_files o rest).1,
          {| Dropzone.file := f;
             Dropzone.errors :=
               ((Dropzone.fileAccepted f
                  (Dropzone.acceptPropAsAcceptAttr (Dropzone.accept o))).2
                ++ (Dropzone.fileMatchSize f (Dropzone.minSize o)
                      (Dropzone.maxSize o)).2)%list |}
          :: (Dropzone.sort_files o rest).2).
Proof.
  unfold Dropzone.file_ok.
  change (Dropzone.sort_files o (f :: rest)) with
   (let '(accepted, acceptError) :=
        Dropzone.fileAccepted f (Dropzone.acceptPropAsAcceptAttr (Dropzone.accept o)) in
      let '(sizeMatch, sizeError) := Dropzone.fileMatchSize f (Dropzone.minSize o) (Dropzone.maxSize o) in
      let '(acc, rej) := Dropzone.sort_files o rest in
      if accepted && sizeMatch then (f :: acc, rej)
      else (acc, {| Dropzone.file := f; Dropzone.errors := (acceptError ++ sizeError)%list |} :: rej)).
  destruct (Dropzone.fileAccepted f _) as [accepted acceptError].
  destruct (Dropzone.fileMatchSize f _ _) as [sizeMatch sizeError].
  destruct (Dropzone.sort_files o rest) as [acc rej]. reflexivity.
Qed.

Lemma sort_files_accepted (o : Dropzone.Options) (files : list File) (g : File) :
  g ∈ (Dropzone.sort_files o files).1 <-> g ∈ files /\ Dropzone.file_ok o g = true.
Proof.
  induction files as [| f rest IH].
  - simpl. split; [intros H; by apply elem_of_nil in H|].
    intros [H _]; by apply elem_of_nil in H.
  - rewrite sort_files_cons.
    destruct (Dropzone.file_ok o f) eqn:Eok; simpl.
    + rewrite !elem_of_cons, IH. split.
      * intros [-> | [Hin Hok]]; [by auto | by auto].
      * intros [[-> | Hin] Hok]; [by left | by right].
    + rewrite IH, elem_of_cons. split; [intros [Hin Hok]; by auto|].
      intros [[-> | Hin] Hok]; [congruence | done].
Qed.

Lemma rejection_errors_nonempty (o : Dropzone.Options) (f : File) :
  Dropzone.file_ok o f = false ->
  ((Dropzone.fileAccepted f
      (Dropzone.acceptPropAsAcceptAttr (Dropzone.accept o))).2
   ++ (Dropzone.fileMatchSize f (Dropzone.minSize o) (Dropzone.maxSize o)).2)%list
  <> [].
Proof.
  unfold Dropzone.file_ok, Dropzone.fileAccepted, Dropzone.fileMatchSize.
  simpl. destruct (_ || _); simpl; [|discriminate].
  repeat case_bool_decide; simpl; discriminate.
Qed.

Lemma sort_files_rejected (o : Dropzone.Options) (files : list File) (f : File) :
  f ∈ files -> Dropzone.file_ok o f = false ->
  exists rej, rej ∈ (Dropzone.sort_files o files).2 /\
    Dropzone.file rej = f /\ Dropzone.errors rej <> [].
Proof.
  intros Hin Hbad. induction files as [| x rest IH];
    [by apply elem_of_nil in Hin|].
  rewrite sort_files_cons.
  apply elem_of_cons in Hin as [<- | Hin].
  - rewrite Hbad. simpl.
    eexists. split; [apply elem_of_cons; left; reflexivity|].
    split; [reflexivity|]. simpl. by apply rejection_errors_nonempty.
  - destruct (IH Hin) as (r & Hr & Hf & He).
    exists r. split; [|done].
    destruct (Dropzone.file_ok o x); simpl; [done|].
    apply elem_of_cons; by right.
Qed.

Lemma setFiles_accepted_sub (o : Dropzone.Options) (files : list File) (g : File) :
  g ∈ (Dropzone.setFiles o files).1 -> g ∈ (Dropzone.sort_files o files).1.
Proof.
  unfold Dropzone.setFiles.
  destruct (Dropzone.sort_files o files) as [acc rej]; simpl.
  destruct (_ || _); simpl; [|done].
  intros H; by apply elem_of_nil in H.
Qed.

Lemma setFiles_rejected_sup (o : Dropzone.Options) (files : list File)
  (r : Dropzone.FileRejection) :
  r ∈ (Dropzone.sort_files o files).2 -> r ∈ (Dropzone.setFiles o files).2.
Proof.
  unfold Dropzone.setFiles.
  destruct (Dropzone.sort_files o files) as [acc rej]; simpl.
  destruct (_ || _); simpl; [|done].
  intros H. apply elem_of_app. by left.
Qed.

Lemma setFiles_at_most_maxFiles (o : Dropzone.Options) (files : list File) :
  Dropzone.multiple o = true -> 1 <= Dropzone.maxFiles o ->
  Z.of_nat (length (Dropzone.setFiles o files).1) <= Dropzone.maxFiles o.
Proof.
  intros Hm Hmax. unfold Dropzone.setFiles.
  destruct (Dropzone.sort_files o files) as [acc rej]; simpl.
  rewrite Hm. simpl. rewrite (bool_decide_eq_true_2 _ Hmax). simpl.
  case_bool_decide; simpl; lia.
Qed.

(** Under the card's options the library's two tests are [passes_check]. *)
Lemma accepts_entry_mime (f : File) :
  Dropzone.accepts_entry f "application/pdf"
  = String.eqb (Dropzone.toLowerCase (file_type f)) "application/pdf".
Proof. reflexivity. Qed.

Lemma accepts_entry_extension (f : File) :
  Dropzone.accepts_entry f ".pdf"
  = Dropzone.endsWith (Dropzone.toLowerCase (file_name f)) ".pdf".
Proof. reflexivity. Qed.

Lemma file_ok_passes_check (f : File) :
  Dropzone.file_ok FileUpload.dropzone_options f = FileUpload.passes_check f.
Proof.
  unfold Dropzone.file_ok, FileUpload.passes_check, FileUpload.is_pdf,
    Dropzone.fileAccepted, Dropzone.fileMatchSize. simpl.
  rewrite orb_false_r, accepts_entry_mime, accepts_entry_extension.
  rewrite orb_assoc. f_equal.
  repeat case_bool_decide; simpl; try reflexivity; lia.
Qed.

Lemma uploadContract_inj (f g : File) :
  Api.uploadContract f = Api.uploadContract g -> f = g.
Proof. unfold Api.uploadContract. intros H. by injection H. Qed.

Lemma check_uploads_elem (selected : list File) (r : Api.Request) :
  r ∈ (FileUpload.check selected).1 ->
  exists g, g ∈ (Dropzone.setFiles FileUpload.dropzone_options selected).1 /\
            r = Api.uploadContract g.
Proof.
  unfold FileUpload.check.
  destruct (Dropzone.setFiles _ selected) as [[| g acc] rej]; simpl.
  - intros H; by apply elem_of_nil in H.
  - intros H. apply list_elem_of_singleton in H as ->.
    exists g. split; [by left | reflexivity].
Qed.

Lemma check_rejections (selected : list File) :
  (FileUpload.check selected).2
  = (Dropzone.setFiles FileUpload.dropzone_options selected).2.
Proof. unfold FileUpload.check. by destruct (Dropzone.setFiles _ selected). Qed.

Lemma check_uploads_at_most_one (selected : list File) :
  (length (FileUpload.check selected).1 <= 1)%nat.
Proof.
  unfold FileUpload.check.
  destruct (Dropzone.setFiles _ selected) as [[| g acc] rej]; simpl; lia.
Qed.

Lemma check_uploads_passed (selected : list File) (r : Api.Request) :
  r ∈ (FileUpload.check selected).1 ->
  exists g, g ∈ selected /\ r = Api.uploadContract g /\
            FileUpload.passes_check g = true.
Proof.
  intros Hr. apply check_uploads_elem in Hr as (g & Hg & ->).
  apply setFiles_accepted_sub, sort_files_accepted in Hg as [Hin Hok].
  rewrite file_ok_passes_check in Hok. by exists g.
Qed.

Lemma check_rejected (selected : list File) (g : File) :
  g ∈ selected -> FileUpload.passes_check g = false ->
  exists rej, rej ∈ (FileUpload.check selected).2 /\
    Dropzone.file rej = g /\ Dropzone.errors rej <> [].
Proof.
  intros Hin Hbad. rewrite check_rejections.
  destruct (sort_files_rejected FileUpload.dropzone_options selected g Hin)
    as (rej & Hrej & Hf & He); [by rewrite file_ok_passes_check|].
  exists rej. split; [by apply setFiles_rejected_sup | done].
Qed.

Lemma check_not_uploaded (selected : list File) (g : File) :
  FileUpload.passes_check g = false ->
  Api.uploadContract g ∉ (FileUpload.check selected).1.
Proof.
  intros Hbad Hup. apply check_uploads_passed in Hup as (x & _ & Heq & Hok).
  apply uploadContract_inj in Heq as <-. congruence.
Qed.

(** file-selector leaves the name and the size alone. *)
Lemma withMimeType_name_size (T : string -> option string) (f : File) :
  file_name (FileSelector.withMimeType T f) = file_name f /\
  file_size (FileSelector.withMimeType T f) = file_size f.
Proof.
  unfold FileSelector.withMimeType.
  destruct (FileSelector.extension (file_name f)); [|done].
  destruct (decide (file_type f = "")); [|done].
  destruct (T _) as [t|]; [|done].
  by destruct (decide (t = "")).
Qed.

(** A type the browser did report is kept. *)
Lemma withMimeType_typed (T : string -> option string) (f : File) :
  file_type f <> "" -> FileSelector.withMimeType T f = f.
Proof.
  intros Ht. unfold FileSelector.withMimeType.
  destruct (FileSelector.extension (file_name f)); [|done].
  by rewrite decide_False.
Qed.

Lemma elem_of_fromEvent (T : string -> option string)
  (how : FileSelector.Arrival) (files : list File) (x : File) :
  x ∈ FileSelector.fromEvent T how files <->
  exists f, f ∈ files /\ x = FileSelector.withMimeType T f /\
            (how = FileSelector.dragged -> FileSelector.ignored f = false).
Proof.
  unfold FileSelector.fromEvent. rewrite list_elem_of_fmap.
  destruct how.
  - unfold FileSelector.noIgnoredFiles. split.
    + intros (f & -> & Hf). apply list_elem_of_filter in Hf as [Hi Hf].
      by exists f.
    + intros (f & Hf & -> & Hi). exists f. split; [done|].
      apply list_elem_of_filter. split; [by apply Hi | done].
  - split.
    + intros (f & -> & Hf). exists f. by repeat split.
    + intros (f & Hf & -> & _). by exists f.
Qed.

(** C5, as stated, refuted: a small file named [scan.pdf] that the browser
    reports as [application/octet-stream] is not of type [application/pdf],
    yet it is accepted on its name and posted, however it arrives; and a
    dragged [Thumbs.db] is neither posted nor given a validation error. *)
Lemma pdf_named_file_is_uploaded :
  let f := {| file_name := "scan.pdf"; file_type := "application/octet-stream";
              file_size := 1024 |} in
  let t := {| file_name := "Thumbs.db"; file_type := "application/octet-stream";
              file_size := 1024 |} in
  file_type f <> "application/pdf" /\
  file_type t <> "application/pdf" /\
  forall (T : string -> option string),
    (forall how : FileSelector.Arrival,
       FileUpload.uploads T how [f] = [Api.uploadContract f] /\
       FileUpload.fileRejections T how [f] = []) /\
    FileUpload.uploads T FileSelector.dragged [t] = [] /\
    FileUpload.fileRejections T FileSelector.dragged [t] = [].
Proof.
  simpl. split; [discriminate|]. split; [discriminate|].
  intros T. split; [intros how; destruct how; split; reflexivity|].
  split; reflexivity.
Qed.

(** C5, amended: take a file presented for upload, dragged or chosen, as
    file-selector hands it on (an empty MIME type filled in from the
    extension). If it is not a PDF, that is neither of MIME type
    [application/pdf] or the placeholder [application/x-moz-file] nor named
    [*.pdf], or if it exceeds 50 MB, no upload request is made for it: a
    dragged [.DS_Store] or [Thumbs.db] is discarded, any other such file is
    listed among the rejections with a validation error. An upload request
    is issued only for a presented file that is such a PDF of at most
    50 MB, and there is at most one request. *)
Theorem rejected_file_is_never_uploaded
  (T : string -> option string) (how : FileSelector.Arrival)
  (files : list File) (f : File) :
  f ∈ files ->
  (FileUpload.is_pdf (FileSelector.withMimeType T f) = false
   \/ 50 * 1024 * 1024 < file_size f) ->
  (Api.uploadContract (FileSelector.withMimeType T f)
     ∉ FileUpload.uploads T how files) /\
  ((how = FileSelector.dragged /\ FileSelector.ignored f = true) \/
   exists rej, rej ∈ FileUpload.fileRejections T how files /\
     Dropzone.file rej = FileSelector.withMimeType T f /\
     Dropzone.errors rej <> []) /\
  (forall r, r ∈ FileUpload.uploads T how files ->
     exists g, g ∈ files /\
       r = Api.uploadContract (FileSelector.withMimeType T g) /\
       FileUpload.is_pdf (FileSelector.withMimeType T g) = true /\
       0 <= file_size g <= 50 * 1024 * 1024 /\
       (how = FileSelector.dragged -> FileSelector.ignored g = false)) /\
  (length (FileUpload.uploads T how files) <= 1)%nat.
Proof.
  intros Hin Hbad.
  destruct (withMimeType_name_size T f) as [_ Hsz].
  assert (Hcheck : FileUpload.passes_check (FileSelector.withMimeType T f) = false).
  { unfold FileUpload.passes_check. destruct Hbad as [-> | Hsize]; [done|].
    rewrite bool_decide_eq_false_2 by lia. apply andb_false_r. }
  unfold FileUpload.uploads, FileUpload.fileRejections, FileUpload.drop.
  split; [by apply check_not_uploaded|]. split; [|split].
  - destruct how.
    + destruct (FileSelector.ignored f) eqn:Ei; [by left | right].
      apply check_rejected; [|exact Hcheck].
      apply elem_of_fromEvent. exists f. by repeat split.
    + right. apply check_rejected; [|exact Hcheck].
      apply elem_of_fromEvent. exists f. split; [done|]. split; [done|].
      intros H. discriminate H.
  - intros r Hr. apply check_uploads_passed in Hr as (x & Hx & -> & Hok).
    apply elem_of_fromEvent in Hx as (g & Hg & -> & Hi).
    exists g. split; [done|]. split; [done|].
    unfold FileUpload.passes_check in Hok.
    apply andb_true_iff in Hok as [Hpdf Hsize].
    apply bool_decide_eq_true in Hsize.
    destruct (withMimeType_name_size T g) as [_ Hg_size].
    rewrite Hg_size in Hsize. done.
  - apply check_uploads_at_most_one.
Qed.

Lemma rejected_file_is_never_uploaded_witness :
  let txt := {| file_name := "notes.txt"; file_type := "text/plain";
                file_size := 2048 |} in
  let T := fun ext : string =>
             if decide (ext = "pdf") then Some "application/pdf" else None in
  Api.uploadContract (FileSelector.withMimeType T txt)
    ∉ FileUpload.uploads T FileSelector.dragged [txt].
Proof.
  intros txt T.
  refine (proj1 (rejected_file_is_never_uploaded T FileSelector.dragged
                   [txt] txt _ _)).
  - apply elem_of_cons. left. reflexivity.
  - left. reflexivity.
Defined.

(** ** Further properties of [formatFileSize] *)

Example formatFileSize_rounds_up_to_1024 :
  Utils.formatFileSize (1024 ^ 2 - 1) = "1024 KB".
Proof. vm_compute. reflexivity. Qed.

Lemma round_hundredths_range (bytes i : Z) :
  0 <= i -> 1024 ^ i <= bytes < 1024 ^ (i + 1) ->
  100 <= Utils.round_hundredths bytes i <= 102400.
Proof.
  intros Hi [Hlo Hhi]. unfold Utils.round_hundredths.
  rewrite Z.pow_add_r in Hhi by lia. change (1024 ^ 1) with 1024 in Hhi.
  assert (Hp : 0 < 1024 ^ i) by (apply Z.pow_pos_nonneg; lia).
  set (P := 1024 ^ i) in *.
  split.
  - apply Z.div_le_lower_bound; lia.
  - assert ((2 * (bytes * 100) + P) / (2 * P) < 102401); [|lia].
    apply Z.div_lt_upper_bound; lia.
Qed.

(** For a size below [1024^4] the number [formatFileSize] prints lies
    between 1 and 1024, both included, and the unit is one of the four: a
    size just below the next unit is rounded up to 1024 of the current
    one. *)
Theorem formatFileSize_number_between_1_and_1024 (bytes : Z) :
  1 <= bytes < 1024 ^ 4 ->
  exists (h : Z) (u : string),
    100 <= h <= 102400 /\
    u ∈ ["Bytes"; "KB"; "MB"; "GB"] /\
    Utils.formatFileSize bytes = Utils.hundredths_to_string h +:+ " " +:+ u.
Proof.
  intros Hb.
  destruct (unit_index_bracket bytes ltac:(lia)) as [Hi Hbr].
  pose proof (unit_index_below_TB bytes Hb) as Hi3.
  exists (Utils.round_hundredths bytes (Utils.unit_index bytes)).
  exists (Utils.unit_label (Utils.unit_index bytes)).
  split; [by apply round_hundredths_range|].
  split.
  - unfold Utils.unit_label.
    assert (Hc : Utils.unit_index bytes = 0 \/ Utils.unit_index bytes = 1
                 \/ Utils.unit_index bytes = 2 \/ Utils.unit_index bytes = 3)
      by lia.
    destruct Hc as [Hc | [Hc | [Hc | Hc]]]; rewrite Hc; simpl;
      rewrite ?elem_of_cons; tauto.
  - unfold Utils.formatFileSize.
    destruct (decide (bytes = 0)); [lia|].
    destruct (decide (bytes < 0)); [lia | reflexivity].
Qed.

Lemma formatFileSize_number_between_1_and_1024_witness :
  exists (h : Z) (u : string),
    100 <= h <= 102400 /\
    u ∈ ["Bytes"; "KB"; "MB"; "GB"] /\
    Utils.formatFileSize (1024 ^ 2 - 1)
      = Utils.hundredths_to_string h +:+ " " +:+ u.
Proof.
  apply (formatFileSize_number_between_1_and_1024 (1024 ^ 2 - 1)).
  split; [vm_compute; discriminate | reflexivity].
Defined.

(** Below 1024 bytes the size is printed as the exact byte count. *)
Theorem formatFileSize_exact_below_1KB (bytes : Z) :
  1 <= bytes < 1024 ->
  Utils.formatFileSize bytes = pretty bytes +:+ " Bytes".
Proof.
  intros Hb.
  assert (Hi : Utils.unit_index bytes = 0).
  { destruct (unit_index_bracket bytes ltac:(lia)) as [H0 [Hlo _]].
    destruct (Z_le_gt_dec (Utils.unit_index bytes) 0); [lia|].
    assert (1024 ^ 1 <= 1024 ^ Utils.unit_index bytes)
      by (apply Z.pow_le_mono_r; lia).
    lia. }
  unfold Utils.formatFileSize.
  destruct (decide (bytes = 0)); [lia|].
  destruct (decide (bytes < 0)); [lia|].
  rewrite Hi. unfold Utils.round_hundredths, Utils.hundredths_to_string.
  change (1024 ^ 0) with 1.
  replace ((2 * (bytes * 100) + 1) / (2 * 1)) with (bytes * 100)
    by (apply Z.div_unique with (r := 1); lia).
  rewrite Z.div_mul by lia. rewrite Z.mod_mul by lia.
  rewrite decide_True by reflexivity. reflexivity.
Qed.

Lemma formatFileSize_exact_below_1KB_witness :
  Utils.formatFileSize 1023 = pretty 1023 +:+ " Bytes".
Proof. apply formatFileSize_exact_below_1KB. lia. Defined.

(** Among sizes below [1024^4], a larger size never gets a smaller
    unit. *)
Theorem unit_index_monotone (a b : Z) :
  1 <= a -> a <= b -> b < 1024 ^ 4 ->
  Utils.unit_index a <= Utils.unit_index b <= 3.
Proof.
  intros Ha Hab Hb. split.
  - unfold Utils.unit_index.
    apply Z.div_le_mono; [lia|]. by apply Z.log2_le_mono.
  - apply unit_index_below_TB. lia.
Qed.

Lemma unit_index_monotone_witness :
  Utils.unit_index 1023 <= Utils.unit_index 1024 <= 3.
Proof. apply unit_index_monotone; [lia | lia | reflexivity]. Defined.

(** ** [formatFieldName] *)

Example formatFieldName_samples :
  ContractDetailPage.formatFieldName "party_1_name" = "Party 1 Name" /\
  ContractDetailPage.formatFieldName "termination_for_cause"
    = "Termination For Cause" /\
  ContractDetailPage.formatFieldName "sla_uptime" = "Sla Uptime" /\
  ContractDetailPage.formatFieldName "" = "".
Proof. vm_compute. repeat split. Qed.

Ltac ascii_cases c :=
  destruct c as [[] [] [] [] [] [] [] []]; vm_compute;
  solve [reflexivity | discriminate | tauto].

Lemma is_word_char_upper (c : ascii) :
  ContractDetailPage.is_word_char (ContractDetailPage.ascii_to_upper c)
  = ContractDetailPage.is_word_char c.
Proof. ascii_cases c. Qed.

Lemma ascii_to_upper_idem (c : ascii) :
  ContractDetailPage.ascii_to_upper (ContractDetailPage.ascii_to_upper c)
  = ContractDetailPage.ascii_to_upper c.
Proof. ascii_cases c. Qed.

Lemma ascii_to_upper_not_underscore (c : ascii) :
  Ascii.eqb c "_" = false ->
  Ascii.eqb (ContractDetailPage.ascii_to_upper c) "_" = false.
Proof. ascii_cases c. Qed.

Lemma capitalize_words_length (b : bool) (s : string) :
  String.length (ContractDetailPage.capitalize_words b s) = String.length s.
Proof.
  revert b. induction s as [| c rest IH]; intros b; simpl; [reflexivity|].
  by rewrite IH.
Qed.

Lemma replace_underscores_length (s : string) :
  String.length (ContractDetailPage.replace_underscores s) = String.length s.
Proof. induction s as [| c rest IH]; simpl; [reflexivity | by rewrite IH]. Qed.

Lemma capitalize_replace_no_underscore (b : bool) (s : string) :
  Forall (fun c => Ascii.eqb c "_" = false)
    (list_ascii_of_string
       (ContractDetailPage.capitalize_words b
          (ContractDetailPage.replace_underscores s))).
Proof.
  revert b. induction s as [| c rest IH]; intros b; simpl; [constructor|].
  constructor; [|apply IH].
  destruct (Ascii.eqb c "_") eqn:Ec.
  - by destruct b.
  - destruct (_ && _); [by apply ascii_to_upper_not_underscore | exact Ec].
Qed.

(** [formatFieldName] keeps the length of the name and leaves no
    underscore in it. *)
Theorem formatFieldName_length_and_no_underscore (fieldName : string) :
  String.length (ContractDetailPage.formatFieldName fieldName)
    = String.length fieldName /\
  Forall (fun c => c <> "_"%char)
    (list_ascii_of_string (ContractDetailPage.formatFieldName fieldName)).
Proof.
  unfold ContractDetailPage.formatFieldName. split.
  - by rewrite capitalize_words_length, replace_underscores_length.
  - eapply Forall_impl; [apply capitalize_replace_no_underscore|].
    intros c Hc ->. discriminate Hc.
Qed.

Lemma capitalize_words_idem (b : bool) (s : string) :
  ContractDetailPage.capitalize_words b (ContractDetailPage.capitalize_words b s)
  = ContractDetailPage.capitalize_words b s.
Proof.
  revert b. induction s as [| c rest IH]; intros b; simpl; [reflexivity|].
  destruct (ContractDetailPage.is_word_char c && negb b) eqn:E.
  - rewrite is_word_char_upper, E, ascii_to_upper_idem. by rewrite IH.
  - rewrite E. by rewrite IH.
Qed.

Lemma replace_underscores_fixed (s : string) :
  Forall (fun c => Ascii.eqb c "_" = false) (list_ascii_of_string s) ->
  ContractDetailPage.replace_underscores s = s.
Proof.
  induction s as [| c rest IH]; simpl; [reflexivity|].
  intros H. apply Forall_cons in H as [Hc Hrest].
  rewrite Hc. by rewrite IH.
Qed.

(** Formatting a name that is already formatted changes nothing. *)
Theorem formatFieldName_idempotent (fieldName : string) :
  ContractDetailPage.formatFieldName
    (ContractDetailPage.formatFieldName fieldName)
  = ContractDetailPage.formatFieldName fieldName.
Proof.
  unfold ContractDetailPage.formatFieldName.
  rewrite (replace_underscores_fixed _ (capitalize_replace_no_underscore _ _)).
  apply capitalize_words_idem.
Qed.

(** ** [getFieldsByCategory] and the field cards *)

Lemma elem_of_present_fields (fields : gmap string Types.ExtractedField)
  (fieldNames : list string) (name : string) (f : Types.ExtractedField) :
  (name, f) ∈ ContractDetailPage.present_fields fields fieldNames
  <-> name ∈ fieldNames /\ fields !! name = Some f.
Proof.
  unfold ContractDetailPage.present_fields. rewrite list_elem_of_omap. split.
  - intros (n & Hn & Hf). destruct (fields !! n) as [g|] eqn:E; [|done].
    simpl in Hf. injection Hf as <- <-. done.
  - intros [Hn Hf]. exists name. split; [done|]. by rewrite Hf.
Qed.

Lemma present_fields_names (fields : gmap string Types.ExtractedField)
  (fieldNames : list string) :
  (ContractDetailPage.present_fields fields fieldNames).*1
  = filter (fun n => is_Some (fields !! n)) fieldNames.
Proof.
  unfold ContractDetailPage.present_fields.
  induction fieldNames as [| n rest IH]; [reflexivity|].
  change (n :: rest) with ([n] ++ rest)%list.
  rewrite omap_app, fmap_app, filter_app, IH. f_equal.
  destruct (fields !! n) as [f|] eqn:E.
  - rewrite filter_cons_True by (rewrite E; eauto). cbn. by rewrite E.
  - rewrite filter_cons_False by (rewrite E; by intros [? ?]). cbn. by rewrite E.
Qed.

Lemma getFieldsByCategory_lookup (fields : gmap string Types.ExtractedField) :
  let by_category := ContractDetailPage.getFieldsByCategory fields in
  by_category !! "parties"
    = Some (ContractDetailPage.present_fields fields
              ["party_1_name"; "party_2_name"]) /\
  by_category !! "financial"
    = Some (ContractDetailPage.present_fields fields
              ["contract_value"; "currency"; "payment_terms";
               "billing_frequency"]) /\
  by_category !! "dates"
    = Some (ContractDetailPage.present_fields fields
              ["effective_date"; "execution_date"; "termination_date";
               "renewal_term"; "auto_renewal"; "notice_period"]) /\
  by_category !! "legal"
    = Some (ContractDetailPage.present_fields fields
              ["governing_law"; "liability_cap"; "confidentiality";
               "termination_for_convenience"; "termination_for_cause"]) /\
  by_category !! "sla"
    = Some (ContractDetailPage.present_fields fields
              ["sla_uptime"; "support_hours"]).
Proof.
  unfold ContractDetailPage.getFieldsByCategory, ContractDetailPage.categories.
  cbn [foldl fst snd]. repeat split; by simplify_map_eq.
Qed.

Lemma omap_cons_unfold {A B : Type} (f : A -> option B) (x : A) (l : list A) :
  omap f (x :: l) = match f x with Some y => y :: omap f l | None => omap f l end.
Proof. reflexivity. Qed.

Lemma field_cards_rows (fields : gmap string Types.ExtractedField) :
  mjoin (ContractDetailPage.field_cards fields).*2 =
  ContractDetailPage.present_fields fields ContractDetailPage.card_field_names.
Proof.
  unfold ContractDetailPage.card_field_names.
  unfold ContractDetailPage.present_fields at 1. rewrite !omap_app.
  fold (ContractDetailPage.present_fields fields ["party_1_name"; "party_2_name"]).
  fold (ContractDetailPage.present_fields fields
          ["contract_value"; "currency"; "payment_terms"; "billing_frequency"]).
  fold (ContractDetailPage.present_fields fields
          ["effective_date"; "execution_date"; "termination_date";
           "renewal_term"; "auto_renewal"; "notice_period"]).
  fold (ContractDetailPage.present_fields fields
          ["governing_law"; "liability_cap"; "confidentiality";
           "termination_for_convenience"; "termination_for_cause"]).
  fold (ContractDetailPage.present_fields fields ["sla_uptime"; "support_hours"]).
  destruct (getFieldsByCategory_lookup fields) as (H1 & H2 & H3 & H4 & H5).
  unfold ContractDetailPage.field_cards, ContractDetailPage.card_order.
  rewrite !omap_cons_unfold. cbn [fst snd].
  rewrite H1, H2, H3, H4, H5. clear H1 H2 H3 H4 H5.
  generalize (ContractDetailPage.present_fields fields
                ["party_1_name"; "party_2_name"]) as l1.
  generalize (ContractDetailPage.present_fields fields
                ["contract_value"; "currency"; "payment_terms";
                 "billing_frequency"]) as l2.
  generalize (ContractDetailPage.present_fields fields
                ["effective_date"; "execution_date"; "termination_date";
                 "renewal_term"; "auto_renewal"; "notice_period"]) as l3.
  generalize (ContractDetailPage.present_fields fields
                ["governing_law"; "liability_cap"; "confidentiality";
                 "termination_for_convenience"; "termination_for_cause"]) as l4.
  generalize (ContractDetailPage.present_fields fields
                ["sla_uptime"; "support_hours"]) as l5.
  intros [|? ?] [|? ?] [|? ?] [|? ?] [|? ?]; simpl;
    rewrite ?app_nil_r; reflexivity.
Qed.

Lemma known_field_names_cards (name : string) :
  name ∈ ContractDetailPage.known_field_names <->
  name ∈ ContractDetailPage.card_field_names.
Proof.
  unfold ContractDetailPage.known_field_names, ContractDetailPage.categories,
    ContractDetailPage.card_field_names.
  simpl. rewrite !elem_of_cons, !elem_of_nil. tauto.
Qed.

Lemma elem_of_displayed_fields
  (contract : Types.Contract) (name : string) (f : Types.ExtractedField) :
  (name, f) ∈ ContractDetailPage.displayed_fields contract <->
  Types.status contract = Types.Completed /\
  name ∈ ContractDetailPage.card_field_names /\
  Types.fields contract !! name = Some f.
Proof.
  unfold ContractDetailPage.displayed_fields.
  destruct (decide (Types.status contract = Types.Completed)) as [Hc | Hc].
  - destruct (decide (Types.fields contract = ∅)) as [He | He].
    + rewrite He. split; [intros H; by apply elem_of_nil in H|].
      intros (_ & _ & H). by rewrite lookup_empty in H.
    + rewrite field_cards_rows, elem_of_present_fields. tauto.
  - split; [intros H; by apply elem_of_nil in H | tauto].
Qed.

(** A field is shown on the detail page exactly when the contract is
    completed, the field is in the contract's field map, and its name is
    one of the nineteen the page knows; any other extracted field is never
    shown. *)
Theorem displayed_field_iff
  (contract : Types.Contract) (name : string) (f : Types.ExtractedField) :
  (name, f) ∈ ContractDetailPage.displayed_fields contract <->
  Types.status contract = Types.Completed /\
  name ∈ ContractDetailPage.known_field_names /\
  Types.fields contract !! name = Some f.
Proof.
  rewrite elem_of_displayed_fields, known_field_names_cards. tauto.
Qed.

Lemma card_names_NoDup :
  NoDup ContractDetailPage.card_field_names.
Proof.
  unfold ContractDetailPage.card_field_names. simpl.
  repeat (apply NoDup_cons; split;
    [rewrite ?elem_of_cons, elem_of_nil; intros H;
     repeat (destruct H as [H | H]; [discriminate H|]); exact H|]).
  apply NoDup_nil_2.
Qed.

(** No field is shown twice, and the page never shows more rows than the
    contract has fields. *)
Theorem displayed_fields_no_duplicates (contract : Types.Contract) :
  NoDup (ContractDetailPage.displayed_fields contract).*1 /\
  (length (ContractDetailPage.displayed_fields contract)
   <= size (Types.fields contract))%nat.
Proof.
  assert (Hnd : NoDup (ContractDetailPage.displayed_fields contract).*1).
  { unfold ContractDetailPage.displayed_fields.
    destruct (decide (Types.status contract = Types.Completed));
      [|apply NoDup_nil_2].
    destruct (decide (Types.fields contract = ∅)); [apply NoDup_nil_2|].
    rewrite field_cards_rows, present_fields_names.
    apply NoDup_filter, card_names_NoDup. }
  split; [exact Hnd|].
  rewrite <- (length_fmap fst), <- (size_list_to_set (C := gset string)) by exact Hnd.
  rewrite <- size_dom. apply subseteq_size.
  intros name Hname. apply elem_of_list_to_set in Hname.
  apply list_elem_of_fmap in Hname as ([n f] & -> & Hin).
  apply elem_of_displayed_fields in Hin as (_ & _ & Hf).
  apply elem_of_dom. by exists f.
Qed.

(** ** Further properties of the list page *)

Lemma step_page_congr (v : ContractsPage.View)
  (s1 s2 : ContractsPage.State) (e : ContractsPage.Event) :
  ContractsPage.page s1 = ContractsPage.page s2 ->
  ContractsPage.page (ContractsPage.step v s1 e)
  = ContractsPage.page (ContractsPage.step v s2 e).
Proof.
  intros Hp. destruct v as [| | d]; simpl; [done | done |].
  destruct e as [i | i | i | |]; simpl.
  - by destruct (ContractsPage.target_value _ i).
  - by destruct (ContractsPage.target_value _ i).
  - by destruct (ContractsPage.target_value _ i).
  - unfold ContractsPage.previous_disabled. rewrite Hp.
    destruct (_ && _); simpl; lia.
  - unfold ContractsPage.next_disabled. rewrite Hp.
    destruct (_ && _); simpl; lia.
Qed.

Lemma run_page_congr (trace : list (ContractsPage.View * ContractsPage.Event))
  (s1 s2 : ContractsPage.State) :
  ContractsPage.page s1 = ContractsPage.page s2 ->
  ContractsPage.page (ContractsPage.run trace s1)
  = ContractsPage.page (ContractsPage.run trace s2).
Proof.
  revert s1 s2. induction trace as [| [v e] rest IH]; intros s1 s2 Hp; simpl;
    [exact Hp|].
  apply IH. by apply step_page_congr.
Qed.

Lemma select_keeps_page (v : ContractsPage.View)
  (s : ContractsPage.State) (e : ContractsPage.Event) :
  ContractsPage.is_click e = false ->
  ContractsPage.page (ContractsPage.step v s e) = ContractsPage.page s.
Proof.
  intros He. destruct v as [| | d]; simpl; [done | done |].
  destruct e as [i | i | i | |]; simpl; try discriminate He;
    by destruct (ContractsPage.target_value _ i).
Qed.

(** The page number depends on the pagination clicks alone: changing the
    status filter, the sort key or the sort order never moves it (and so
    never brings the list back to page 1). *)
Theorem page_depends_on_clicks_only
  (trace : list (ContractsPage.View * ContractsPage.Event))
  (s : ContractsPage.State) :
  ContractsPage.page (ContractsPage.run trace s) =
  ContractsPage.page
    (ContractsPage.run (filter (fun ve => ContractsPage.is_click ve.2 = true) trace) s).
Proof.
  revert s. induction trace as [| [v e] rest IH]; intros s; [reflexivity|].
  destruct (ContractsPage.is_click e) eqn:He.
  - rewrite filter_cons_True by exact He. simpl. apply IH.
  - rewrite filter_cons_False by (simpl; congruence). simpl.
    rewrite IH. apply run_page_congr. by apply select_keeps_page.
Qed.

(** Two states of the page that issue the same list request are the same
    state: the request carries the whole query key. *)
Theorem queryFn_injective (s1 s2 : ContractsPage.State) :
  ContractsPage.queryFn s1 = ContractsPage.queryFn s2 -> s1 = s2.
Proof.
  intros Heq.
  destruct (queryFn_params_lookup s1) as (Hp1 & _ & Hs1 & Hb1 & Ho1 & _).
  destruct (queryFn_params_lookup s2) as (Hp2 & _ & Hs2 & Hb2 & Ho2 & _).
  rewrite Heq in Hp1, Hs1, Hb1, Ho1.
  rewrite Hp1 in Hp2. rewrite Hs1 in Hs2. rewrite Hb1 in Hb2. rewrite Ho1 in Ho2.
  assert (Hst : ContractsPage.statusFilter s1 = ContractsPage.statusFilter s2).
  { destruct (decide (ContractsPage.statusFilter s1 = "")) as [E1 | E1],
      (decide (ContractsPage.statusFilter s2 = "")) as [E2 | E2];
      try discriminate Hs2; congruence. }
  destruct s1, s2; simpl in *. congruence.
Qed.

Lemma queryFn_injective_witness :
  ContractsPage.setSortBy "filename" ContractsPage.initial
  = ContractsPage.setSortBy "filename" ContractsPage.initial.
Proof. apply queryFn_injective. reflexivity. Defined.

Lemma next_clicks_from (d : Types.ContractListResponse) (k : nat)
  (s : ContractsPage.State) :
  10 < Types.total d ->
  ContractsPage.page s <= ContractsPage.total_pages (Types.total d) ->
  ContractsPage.page
    (ContractsPage.run
       (replicate k (ContractsPage.Loaded d, ContractsPage.ClickNext)) s)
  = Z.min (ContractsPage.page s + Z.of_nat k)
          (ContractsPage.total_pages (Types.total d)).
Proof.
  intros Ht. revert s. induction k as [| k IH]; intros s Hs; simpl; [lia|].
  rewrite IH.
  - unfold ContractsPage.pagination_rendered, ContractsPage.next_disabled.
    rewrite bool_decide_eq_true_2 by lia. simpl.
    case_bool_decide; simpl; lia.
  - unfold ContractsPage.pagination_rendered, ContractsPage.next_disabled.
    rewrite bool_decide_eq_true_2 by lia. simpl.
    case_bool_decide; simpl; lia.
Qed.

(** On a list of more than ten contracts, [k] clicks on [Next] from the
    first page lead to page [1 + k], or to the last page if that comes
    first: every page is reachable and none beyond the last. *)
Theorem next_clicks_reach_every_page (d : Types.ContractListResponse) (k : nat) :
  10 < Types.total d ->
  ContractsPage.page
    (ContractsPage.run
       (replicate k (ContractsPage.Loaded d, ContractsPage.ClickNext))
       ContractsPage.initial)
  = Z.min (1 + Z.of_nat k) (ContractsPage.total_pages (Types.total d)).
Proof.
  intros Ht. apply next_clicks_from; [exact Ht|].
  pose proof (total_pages_ceiling (Types.total d)). simpl. lia.
Qed.

Lemma next_clicks_reach_every_page_witness :
  let d := {| Types.total := 25; Types.resp_page := 1; Types.limit := 10;
              Types.contracts := [] |} in
  ContractsPage.page
    (ContractsPage.run
       (replicate 5 (ContractsPage.Loaded d, ContractsPage.ClickNext))
       ContractsPage.initial)
  = 3.
Proof.
  intros d.
  exact (next_clicks_reach_every_page d 5 ltac:(simpl; lia)).
Defined.

(** [Next] followed by [Previous] returns to the state one started from
    unless one was on the last page, and [Previous] followed by [Next]
    unless one was on the first. *)
Theorem next_previous_cancel
  (d : Types.ContractListResponse) (s : ContractsPage.State) :
  10 < Types.total d ->
  (1 <= ContractsPage.page s < ContractsPage.total_pages (Types.total d) ->
   ContractsPage.step (ContractsPage.Loaded d)
     (ContractsPage.step (ContractsPage.Loaded d) s ContractsPage.ClickNext)
     ContractsPage.ClickPrevious = s) /\
  (1 < ContractsPage.page s <= ContractsPage.total_pages (Types.total d) ->
   ContractsPage.step (ContractsPage.Loaded d)
     (ContractsPage.step (ContractsPage.Loaded d) s ContractsPage.ClickPrevious)
     ContractsPage.ClickNext = s).
Proof.
  intros Ht. destruct s as [p f b o].
  unfold ContractsPage.step, ContractsPage.pagination_rendered,
    ContractsPage.next_disabled, ContractsPage.previous_disabled,
    ContractsPage.setPage. simpl.
  rewrite bool_decide_eq_true_2 by lia. simpl. split; intros Hp.
  - rewrite (bool_decide_eq_false_2 (_ <= p)) by lia. simpl.
    rewrite bool_decide_eq_false_2 by lia. simpl. f_equal. lia.
  - rewrite (bool_decide_eq_false_2 (p <= 1)) by lia. simpl.
    rewrite bool_decide_eq_false_2 by lia. simpl. f_equal. lia.
Qed.

Lemma next_previous_cancel_witness :
  let d := {| Types.total := 25; Types.resp_page := 1; Types.limit := 10;
              Types.contracts := [] |} in
  ContractsPage.step (ContractsPage.Loaded d)
    (ContractsPage.step (ContractsPage.Loaded d) ContractsPage.initial
       ContractsPage.ClickNext)
    ContractsPage.ClickPrevious = ContractsPage.initial.
Proof.
  intros d.
  apply (proj1 (next_previous_cancel d ContractsPage.initial ltac:(simpl; lia))).
  vm_compute. split; [discriminate | reflexivity].
Defined.

(** [Next] is enabled exactly when ten contracts per page leave at least
    one for the following page. *)
Theorem next_enabled_iff_more_contracts
  (s : ContractsPage.State) (d : Types.ContractListResponse) :
  ContractsPage.next_disabled s d = false
  <-> 10 * ContractsPage.page s < Types.total d.
Proof.
  unfold ContractsPage.next_disabled.
  pose proof (total_pages_ceiling (Types.total d)).
  rewrite bool_decide_eq_false. lia.
Qed.

Lemma step_page_bounded (M : Z)
  (v : ContractsPage.View) (s : ContractsPage.State) (e : ContractsPage.Event) :
  (forall t, ContractsPage.view_total v = Some t ->
     ContractsPage.total_pages t <= M) ->
  1 <= ContractsPage.page s <= M ->
  1 <= ContractsPage.page (ContractsPage.step v s e) <= M.
Proof.
  intros Hv Hs. destruct v as [| | d]; simpl; [done | done |].
  specialize (Hv (Types.total d) eq_refl).
  destruct e as [i | i | i | |]; simpl.
  - by destruct (ContractsPage.target_value _ i).
  - by destruct (ContractsPage.target_value _ i).
  - by destruct (ContractsPage.target_value _ i).
  - unfold ContractsPage.previous_disabled.
    destruct (ContractsPage.pagination_rendered d); simpl; [|done].
    case_bool_decide; simpl; lia.
  - unfold ContractsPage.next_disabled.
    destruct (ContractsPage.pagination_rendered d); simpl; [|done].
    case_bool_decide; simpl; lia.
Qed.

(** Whatever totals the server reports from one fetch to the next, the
    page number never drops below 1 and never exceeds the largest page
    count that was on screen when a click was made. *)
Theorem page_bounded_under_changing_totals (M : Z)
  (trace : list (ContractsPage.View * ContractsPage.Event)) :
  1 <= M ->
  Forall (fun ve => forall t, ContractsPage.view_total ve.1 = Some t ->
                      ContractsPage.total_pages t <= M) trace ->
  1 <= ContractsPage.page (ContractsPage.run trace ContractsPage.initial) <= M.
Proof.
  intros HM Htrace.
  assert (Hinit : 1 <= ContractsPage.page ContractsPage.initial <= M)
    by (simpl; lia).
  revert Hinit. generalize ContractsPage.initial.
  induction Htrace as [| [v e] rest Hv _ IH]; intros s Hs; simpl; [exact Hs|].
  apply IH. by apply step_page_bounded.
Qed.

Lemma page_bounded_under_changing_totals_witness :
  let d25 := {| Types.total := 25; Types.resp_page := 1; Types.limit := 10;
                Types.contracts := [] |} in
  let d12 := {| Types.total := 12; Types.resp_page := 3; Types.limit := 10;
                Types.contracts := [] |} in
  let trace := [(ContractsPage.Loaded d25, ContractsPage.ClickNext);
                (ContractsPage.Loaded d25, ContractsPage.ClickNext);
                (ContractsPage.Loaded d12, ContractsPage.ClickNext);
                (ContractsPage.Loaded d12, ContractsPage.ClickPrevious)] in
  1 <= ContractsPage.page (ContractsPage.run trace ContractsPage.initial) <= 3.
Proof.
  intros d25 d12 trace.
  apply (page_bounded_under_changing_totals 3 trace ltac:(lia)).
  repeat constructor; simpl; intros t [= <-]; vm_compute; discriminate.
Defined.

(** ** Further properties of [lib/api.ts] *)

Lemma string_length_app (s t : string) :
  String.length (s +:+ t) = (String.length s + String.length t)%nat.
Proof. induction s as [| c r IH]; simpl; [reflexivity | by rewrite IH]. Qed.

Lemma string_app_inj_r (s1 s2 t : string) :
  s1 +:+ t = s2 +:+ t -> s1 = s2.
Proof.
  revert s2. induction s1 as [| c r IH]; intros s2 H.
  - apply (f_equal String.length) in H.
    rewrite !string_length_app in H.
    destruct s2; [reflexivity | simpl in H; lia].
  - destruct s2 as [| c2 r2].
    + apply (f_equal String.length) in H.
      rewrite !string_length_app in H. simpl in H. lia.
    + simpl in H. injection H as -> H. f_equal. by apply IH.
Qed.

(** Within one endpoint, the request built for one contract id is never
    the request built for another: each endpoint's request determines the
    contract id it was built from. *)
Theorem contract_requests_determine_id (id1 id2 : string) :
  (Api.getContract id1 = Api.getContract id2 -> id1 = id2) /\
  (Api.getProcessingStatus id1 = Api.getProcessingStatus id2 -> id1 = id2) /\
  (Api.deleteContract id1 = Api.deleteContract id2 -> id1 = id2) /\
  (forall o1 o2 : Api.ReprocessOptions,
     Api.reprocessContract id1 o1 = Api.reprocessContract id2 o2 -> id1 = id2).
Proof.
  split; [|split; [|split]].
  - intros H. apply (f_equal Api.url) in H. simpl in H. by injection H.
  - intros H. apply (f_equal Api.url) in H. simpl in H.
    injection H as H. exact (string_app_inj_r id1 id2 "/status" H).
  - intros H. apply (f_equal Api.url) in H. simpl in H. by injection H.
  - intros o1 o2 H. apply (f_equal Api.url) in H. simpl in H.
    injection H as H. exact (string_app_inj_r id1 id2 "/reprocess" H).
Qed.

(** ** Further properties of the upload card *)

Lemma sort_files_accepted_filter (o : Dropzone.Options) (files : list File) :
  (Dropzone.sort_files o files).1
  = filter (fun f => Dropzone.file_ok o f = true) files.
Proof.
  induction files as [| f rest IH]; [reflexivity|].
  rewrite sort_files_cons.
  destruct (Dropzone.file_ok o f) eqn:E; simpl.
  - rewrite filter_cons_True by exact E. by rewrite IH.
  - rewrite filter_cons_False by congruence. exact IH.
Qed.

Lemma passing_files_filter (files : list File) :
  (Dropzone.sort_files FileUpload.dropzone_options files).1
  = filter (fun f => FileUpload.passes_check f = true) files.
Proof.
  rewrite sort_files_accepted_filter.
  induction files as [| f rest IH]; [reflexivity|].
  rewrite !filter_cons, IH, file_ok_passes_check. reflexivity.
Qed.

(** Files presented to the card cause an upload exactly when one and only
    one of those that reach the check passes it, and then that file is the
    one posted: a valid PDF presented alone is uploaded (an empty one too),
    two valid PDFs presented together are both left out. What reaches the
    check is what file-selector hands on: all files but a dragged
    [.DS_Store] or [Thumbs.db], an empty MIME type filled in from the
    extension. *)
Theorem upload_iff_exactly_one_passes
  (T : string -> option string) (how : FileSelector.Arrival)
  (files : list File) :
  FileUpload.uploads T how files =
    match filter (fun f => FileUpload.passes_check f = true)
            (FileSelector.fromEvent T how files) with
    | [f] => [Api.uploadContract f]
    | _ => []
    end.
Proof.
  unfold FileUpload.uploads, FileUpload.drop, FileUpload.check,
    Dropzone.setFiles.
  generalize (FileSelector.fromEvent T how files) as selected.
  intros selected.
  pose proof (passing_files_filter selected) as Hacc.
  destruct (Dropzone.sort_files FileUpload.dropzone_options selected)
    as [acc rej]. simpl in Hacc. rewrite <- Hacc. simpl.
  destruct acc as [| f [| g acc]]; [reflexivity | reflexivity |].
  rewrite bool_decide_eq_true_2 by (simpl length; lia). reflexivity.
Qed.

Example empty_pdf_is_uploaded :
  let f := {| file_name := "empty.pdf"; file_type := "application/pdf";
              file_size := 0 |} in
  forall T how, FileUpload.uploads T how [f] = [Api.uploadContract f].
Proof. intros f T how. by destruct how. Qed.

Example two_pdfs_upload_nothing :
  let f := {| file_name := "a.pdf"; file_type := "application/pdf";
              file_size := 10 |} in
  let g := {| file_name := "b.pdf"; file_type := "application/pdf";
              file_size := 20 |} in
  forall T,
    FileUpload.uploads T FileSelector.dragged [f; g] = [] /\
    Dropzone.errors <$> FileUpload.fileRejections T FileSelector.dragged [f; g]
      = [[Dropzone.too_many_files]; [Dropzone.too_many_files]].
Proof. intros f g T. split; reflexivity. Qed.

Lemma too_many_rejection (acc : list File) (f : File) :
  f ∈ acc ->
  {| Dropzone.file := f; Dropzone.errors := [Dropzone.too_many_files] |}
  ∈ map (fun x => {| Dropzone.file := x;
                     Dropzone.errors := [Dropzone.too_many_files] |}) acc.
Proof.
  intros H. apply list_elem_of_In.
  apply (in_map (fun x => {| Dropzone.file := x;
                             Dropzone.errors := [Dropzone.too_many_files] |})).
  by apply list_elem_of_In.
Qed.

(** A file that reaches the check is posted or listed as rejected. *)
Lemma check_uploaded_or_rejected (selected : list File) (g : File) :
  g ∈ selected ->
  Api.uploadContract g ∈ (FileUpload.check selected).1 \/
  exists rej, rej ∈ (FileUpload.check selected).2 /\ Dropzone.file rej = g.
Proof.
  intros Hin.
  destruct (FileUpload.passes_check g) eqn:Hok.
  - assert (Hacc : g ∈ (Dropzone.sort_files FileUpload.dropzone_options selected).1)
      by (apply sort_files_accepted; by rewrite file_ok_passes_check).
    unfold FileUpload.check, Dropzone.setFiles.
    destruct (Dropzone.sort_files FileUpload.dropzone_options selected)
      as [acc rej]. simpl in *.
    destruct acc as [| x [| y acc]]; simpl.
    + by apply elem_of_nil in Hacc.
    + left. apply list_elem_of_singleton in Hacc as ->.
      apply list_elem_of_singleton. reflexivity.
    + right. rewrite bool_decide_eq_true_2 by (simpl length; lia). simpl.
      exists {| Dropzone.file := g;
                Dropzone.errors := [Dropzone.too_many_files] |}.
      split; [|reflexivity].
      apply elem_of_app. right.
      exact (too_many_rejection (x :: y :: acc) g Hacc).
  - right. destruct (check_rejected selected g Hin Hok) as (rej & Hrej & Hf & _).
    by exists rej.
Qed.

Lemma sort_files_rejection_files (o : Dropzone.Options) (files : list File)
  (rej : Dropzone.FileRejection) :
  rej ∈ (Dropzone.sort_files o files).2 -> Dropzone.file rej ∈ files.
Proof.
  induction files as [| f rest IH]; [intros H; by apply elem_of_nil in H|].
  rewrite sort_files_cons.
  destruct (Dropzone.file_ok o f); simpl.
  - intros H. apply elem_of_cons. right. by apply IH.
  - intros H. apply elem_of_cons in H as [-> | H]; [by left|].
    apply elem_of_cons. right. by apply IH.
Qed.

(** Whatever the card posts or lists as rejected is a file that reached
    the check. *)
Lemma check_files_selected (selected : list File) :
  (forall r, r ∈ (FileUpload.check selected).1 ->
     exists g, g ∈ selected /\ r = Api.uploadContract g) /\
  (forall rej, rej ∈ (FileUpload.check selected).2 ->
     Dropzone.file rej ∈ selected).
Proof.
  split.
  - intros r Hr. apply check_uploads_passed in Hr as (g & Hg & -> & _).
    by exists g.
  - intros rej. rewrite check_rejections. unfold Dropzone.setFiles.
    pose proof (sort_files_rejection_files FileUpload.dropzone_options
                  selected) as Hrej.
    pose proof (sort_files_accepted FileUpload.dropzone_options selected)
      as Hacc.
    destruct (Dropzone.sort_files FileUpload.dropzone_options selected)
      as [acc rejs]. simpl in *.
    match goal with
    | |- context [if ?b then _ else _] => destruct b
    end; simpl; [|by apply Hrej].
    intros H. apply elem_of_app in H as [H | H]; [by apply Hrej|].
    apply list_elem_of_In, in_map_iff in H as (x & <- & Hx). simpl.
    apply list_elem_of_In in Hx. by apply Hacc in Hx as [Hx _].
Qed.

(** No presented file is passed over in silence, system files apart: a
    dragged [.DS_Store] or [Thumbs.db] is neither posted nor listed among
    the rejections; every other file is, as file-selector hands it on,
    either the file posted or listed among the rejections. *)
Theorem dropped_file_uploaded_or_rejected
  (T : string -> option string) (how : FileSelector.Arrival)
  (files : list File) (f : File) :
  f ∈ files ->
  if match how with
     | FileSelector.dragged => FileSelector.ignored f
     | FileSelector.chosen => false
     end
  then
    (Api.uploadContract (FileSelector.withMimeType T f)
       ∉ FileUpload.uploads T how files) /\
    (forall rej, rej ∈ FileUpload.fileRejections T how files ->
       Dropzone.file rej <> FileSelector.withMimeType T f)
  else
    Api.uploadContract (FileSelector.withMimeType T f)
      ∈ FileUpload.uploads T how files \/
    exists rej, rej ∈ FileUpload.fileRejections T how files /\
      Dropzone.file rej = FileSelector.withMimeType T f.
Proof.
  intros Hin.
  unfold FileUpload.uploads, FileUpload.fileRejections, FileUpload.drop.
  destruct (check_files_selected (FileSelector.fromEvent T how files))
    as [Hup Hrej].
  assert (Hnot : how = FileSelector.dragged -> FileSelector.ignored f = true ->
            FileSelector.withMimeType T f ∉ FileSelector.fromEvent T how files).
  { intros -> Hi Hsel. apply elem_of_fromEvent in Hsel as (g & _ & Heq & Hg).
    specialize (Hg eq_refl).
    unfold FileSelector.ignored in Hi, Hg.
    destruct (withMimeType_name_size T f) as [Hnf _].
    destruct (withMimeType_name_size T g) as [Hng _].
    rewrite <- Hnf, Heq, Hng, Hg in Hi. discriminate Hi. }
  destruct how.
  - destruct (FileSelector.ignored f) eqn:Ei.
    + specialize (Hnot eq_refl eq_refl). split.
      * intros H. apply Hup in H as (g & Hg & Heq).
        apply uploadContract_inj in Heq as <-. by apply Hnot.
      * intros rej Hr Heq. apply Hrej in Hr. rewrite Heq in Hr. by apply Hnot.
    + apply check_uploaded_or_rejected, elem_of_fromEvent.
      exists f. by repeat split.
  - apply check_uploaded_or_rejected, elem_of_fromEvent.
    exists f. split; [done|]. split; [done|]. intros H; discriminate H.
Qed.

Lemma dropped_file_uploaded_or_rejected_witness :
  let f := {| file_name := "Thumbs.db"; file_type := "application/pdf";
              file_size := 4096 |} in
  let T := fun ext : string =>
             if decide (ext = "pdf") then Some "application/pdf" else None in
  Api.uploadContract (FileSelector.withMimeType T f)
    ∉ FileUpload.uploads T FileSelector.dragged [f].
Proof.
  intros f T.
  refine (proj1 (dropped_file_uploaded_or_rejected T FileSelector.dragged
                   [f] f _)).
  apply elem_of_cons. left. reflexivity.
Defined.

(** The size of a file the card accepts is always printed in [Bytes],
    [KB] or [MB], never in [GB] and never without a unit. *)
Theorem accepted_file_size_has_unit (f : File) :
  FileUpload.passes_check f = true ->
  exists (h : Z) (u : string),
    u ∈ ["Bytes"; "KB"; "MB"] /\
    Utils.formatFileSize (file_size f) =
      Utils.hundredths_to_string h +:+ " " +:+ u.
Proof.
  unfold FileUpload.passes_check. intros Hok.
  apply andb_true_iff in Hok as [_ Hsize].
  apply bool_decide_eq_true in Hsize.
  destruct (decide (file_size f = 0)) as [-> | Hnz].
  - exists 0, "Bytes". split; [apply elem_of_cons; by left | reflexivity].
  - destruct (unit_index_bracket (file_size f) ltac:(lia)) as [Hi [Hlo _]].
    assert (Hle : Utils.unit_index (file_size f) <= 2).
    { destruct (Z_le_gt_dec (Utils.unit_index (file_size f)) 2); [assumption|].
      assert (1024 ^ 3 <= 1024 ^ Utils.unit_index (file_size f))
        by (apply Z.pow_le_mono_r; lia).
      assert (50 * 1024 * 1024 < 1024 ^ 3) by reflexivity. lia. }
    exists (Utils.round_hundredths (file_size f) (Utils.unit_index (file_size f))).
    unfold Utils.formatFileSize.
    destruct (decide (file_size f = 0)); [done|].
    destruct (decide (file_size f < 0)); [lia|].
    unfold Utils.unit_label.
    assert (Hc : Utils.unit_index (file_size f) = 0
                 \/ Utils.unit_index (file_size f) = 1
                 \/ Utils.unit_index (file_size f) = 2) by lia.
    destruct Hc as [Hc | [Hc | Hc]]; rewrite Hc; simpl;
      eexists; (split; [|reflexivity]);
      rewrite ?elem_of_cons; tauto.
Qed.

Lemma accepted_file_size_has_unit_witness :
  exists (h : Z) (u : string),
    u ∈ ["Bytes"; "KB"; "MB"] /\
    Utils.formatFileSize (50 * 1024 * 1024) =
      Utils.hundredths_to_string h +:+ " " +:+ u.
Proof.
  apply (accepted_file_size_has_unit
           {| file_name := "big.pdf"; file_type := "application/pdf";
              file_size := 50 * 1024 * 1024 |}).
  reflexivity.
Defined.

(** ** The upload page *)

(** What the page shows after a report from the card depends on that
    report alone, and the success card and the failure card are never on
    screen together. *)
Theorem upload_banners_exclusive
  (events : list UploadPage.Event) (s : UploadPage.State) :
  (forall ev : UploadPage.Event,
     UploadPage.run (events ++ [ev]) s
     = UploadPage.step UploadPage.initial ev) /\
  (UploadPage.success_card (UploadPage.run events UploadPage.initial) = None \/
   UploadPage.error_card (UploadPage.run events UploadPage.initial) = None).
Proof.
  assert (Hlast : forall (evs : list UploadPage.Event) ev s0,
            UploadPage.run (evs ++ [ev]) s0
            = UploadPage.step UploadPage.initial ev).
  { intros evs ev s0. unfold UploadPage.run. rewrite foldl_app. simpl.
    by destruct ev. }
  split; [intros ev; apply Hlast|].
  induction events as [| ev evs _] using rev_ind; [by left|].
  rewrite Hlast. destruct ev; simpl; [by right | by left].
Qed.

Lemma js_or_truthy (a b : FileUpload.Any) :
  FileUpload.truthy b = true -> FileUpload.truthy (FileUpload.js_or a b) = true.
Proof.
  intros Hb. unfold FileUpload.js_or.
  by destruct (FileUpload.truthy a) eqn:Ea.
Qed.

(** What the card hands to the page after a failed upload is the
    response's [detail] when that is truthy, whatever its type, else the
    error's [message] when that is truthy, else ['Upload failed']; it is
    always truthy, and not empty when it is a string. So after a failure
    the guard of the failure card always passes, with that value as the
    card's child, and the success card is taken down. *)
Theorem upload_failure_always_shown
  (e : FileUpload.UploadError) (s : UploadPage.State) :
  FileUpload.truthy (FileUpload.onError_message e) = true /\
  (FileUpload.truthy (FileUpload.detail e) = true ->
     FileUpload.onError_message e = FileUpload.detail e) /\
  (FileUpload.truthy (FileUpload.detail e) = false ->
   FileUpload.truthy (FileUpload.message e) = true ->
     FileUpload.onError_message e = FileUpload.message e) /\
  (FileUpload.truthy (FileUpload.detail e) = false ->
   FileUpload.truthy (FileUpload.message e) = false ->
     FileUpload.onError_message e = FileUpload.any_string "Upload failed") /\
  (forall txt : string,
     FileUpload.onError_message e = FileUpload.any_string txt -> txt <> "") /\
  UploadPage.error_card (UploadPage.step s (UploadPage.UploadFailed e))
    = Some (FileUpload.onError_message e) /\
  UploadPage.success_card (UploadPage.step s (UploadPage.UploadFailed e)) = None.
Proof.
  assert (Ht : FileUpload.truthy (FileUpload.onError_message e) = true).
  { unfold FileUpload.onError_message. by apply js_or_truthy, js_or_truthy. }
  split; [exact Ht|].
  unfold FileUpload.onError_message, FileUpload.js_or in *.
  split; [by intros ->|]. split; [by intros -> ->|]. split; [by intros -> ->|].
  split.
  - intros txt Heq -> . rewrite Heq in Ht. discriminate Ht.
  - unfold UploadPage.error_card. simpl.
    unfold FileUpload.onError_message, FileUpload.js_or. by rewrite Ht.
Qed.
